(** * Static code analyzer: a shallow embedding of [code_analyzer.py]

    The analyzer has two passes over one source text: a line scanner
    (rules S001..S007, regular-expression based) and a syntax-node
    scanner (rules S008..S012, over the tree built by [ast.parse]).
    [check_file] concatenates both issue streams, sorts them by
    [(line_nbr, code)] and prints one report line per issue.

    Modelling choices.
    - A Python [str] is a [list ascii]; the 8-bit characters stand for the
      code points U+0000..U+00FF.
    - The regular expressions of the source are values of [Re.regex] and
      are run by a backtracking matcher with the priorities of Python's
      [re] module (leftmost start, greedy or lazy repetition, first
      alternative first).
    - A generator is modelled by the list of the values it yields; code
      that may raise returns in the error monad [Res].
    - [ast.parse] belongs to the Python runtime: it is a parameter of the
      node pass.
    - The library functions follow Python 3.7 and later ([re.sub] on empty
      matches, the fields of the [ast] classes). *)

From Stdlib Require Import List Ascii String Arith Bool Lia.
From Stdlib Require Import Sorted Permutation DecimalString.
Import ListNotations.

Set Implicit Arguments.
Set Warnings "-register-all".

Local Open Scope list_scope.

(* ================================================================= *)
(** ** Python strings *)

Module PyStr.

Definition str := list ascii.

(** String literals are written [$"..."]: the Rocq [string] is turned into
    the list of its characters. *)
Definition lit (s : string) : str := list_ascii_of_string s.

Definition code (c : ascii) : nat := nat_of_ascii c.

Definition in_range (lo hi : nat) (c : ascii) : bool :=
  (lo <=? code c) && (code c <=? hi).

(** [str.isspace] on one character, and the class [\s] of [re] on [str]
    patterns: TAB..CR, FS..US, SPACE, NEL and NBSP. *)
Definition isspace (c : ascii) : bool :=
  in_range 9 13 c || in_range 28 32 c
  || (code c =? 133) || (code c =? 160).

(** [str.lower] on one character: [A-Z] and the upper-case letters of the
    Latin-1 block (U+00C0..U+00DE without the multiplication sign). *)
Definition lower_char (c : ascii) : ascii :=
  if in_range 65 90 c
     || (in_range 192 222 c && negb (code c =? 215))
  then ascii_of_nat (code c + 32)
  else c.

Definition lower (s : str) : str := map lower_char s.

Fixpoint lstrip (s : str) : str :=
  match s with
  | c :: s' => if isspace c then lstrip s' else s
  | [] => []
  end.

Definition rstrip (s : str) : str := rev (lstrip (rev s)).

(** [s.strip()] *)
Definition strip (s : str) : str := rstrip (lstrip s).

Definition eqb_char (a b : ascii) : bool := Ascii.eqb a b.

(** [a == b] *)
Fixpoint eqb (a b : str) : bool :=
  match a, b with
  | [], [] => true
  | x :: a', y :: b' => eqb_char x y && eqb a' b'
  | _, _ => false
  end.

(** [s.startswith(p)] *)
Fixpoint startswith (s p : str) : bool :=
  match p, s with
  | [], _ => true
  | a :: p', b :: s' => eqb_char a b && startswith s' p'
  | _ :: _, [] => false
  end.

(** [p in s] for strings: [p] occurs as a contiguous substring of [s]. *)
Fixpoint contains (s p : str) : bool :=
  startswith s p ||
  match s with
  | [] => false
  | _ :: s' => contains s' p
  end.

(** [c in s] for a one-character needle. *)
Definition contains_char (s : str) (c : ascii) : bool :=
  existsb (eqb_char c) s.

(** [text.split(sep)] for a one-character separator: never empty, an empty
    field between adjacent separators and at either end. *)
Fixpoint split (sep : ascii) (s : str) : list str :=
  match s with
  | [] => [[]]
  | c :: s' =>
      if eqb_char c sep then [] :: split sep s'
      else match split sep s' with
           | f :: fs => (c :: f) :: fs
           | [] => [[c]]
           end
  end.

(** [str(n)] for a non-negative integer. *)
Definition of_nat (n : nat) : str :=
  lit (NilEmpty.string_of_uint (Nat.to_uint n)).

(** Lexicographic order on strings by code point: [a <= b]. *)
Fixpoint leb (a b : str) : bool :=
  match a, b with
  | [], _ => true
  | _ :: _, [] => false
  | x :: a', y :: b' =>
      (code x <? code y) || ((code x =? code y) && leb a' b')
  end.

End PyStr.

Notation "$ x" := (PyStr.lit x%string) (at level 9, x at level 0, only parsing).

Arguments PyStr.eqb_char : simpl never.
Arguments PyStr.isspace : simpl never.
Arguments PyStr.in_range : simpl never.
Arguments PyStr.lower_char : simpl never.

(* ================================================================= *)
(** ** Exceptions *)

(** The exception classes that the modelled code can meet. *)
Inductive exn : Type :=
| TypeError
| IndexError
| ValueError
| RecursionError
| MemoryError
| AttributeError
| SyntaxError.

(** A computation that returns a value or raises. *)
Definition Res (A : Type) : Type := (exn + A)%type.

Definition ret {A : Type} (a : A) : Res A := inr a.
Definition raise {A : Type} (e : exn) : Res A := inl e.

Definition bind {A B : Type} (m : Res A) (f : A -> Res B) : Res B :=
  match m with
  | inl e => inl e
  | inr a => f a
  end.

Notation "x <- m ;; k" := (bind m (fun x => k))
  (at level 61, m at next level, right associativity).

(* ================================================================= *)
(** ** The regular expressions of [re] *)

Module Re.
Import PyStr.

(** Sets of characters: what one pattern position can consume. *)
Inductive cset : Type :=
| CChar (c : ascii)            (* a literal character *)
| CAny                         (* [.], anything but a newline *)
| CSpace                       (* [\s] *)
| CRange (lo hi : ascii)       (* [lo-hi] inside brackets *)
| CUnion (a b : cset).         (* juxtaposition inside brackets *)

Definition newline : ascii := "010"%char.

Fixpoint cset_mem (cs : cset) (c : ascii) : bool :=
  match cs with
  | CChar a => eqb_char a c
  | CAny => negb (eqb_char c newline)
  | CSpace => isspace c
  | CRange lo hi => in_range (code lo) (code hi) c
  | CUnion a b => cset_mem a c || cset_mem b c
  end.

(** The pattern language used by the analyzer.  Repetition is applied to
    character sets only, as in every pattern of the source. *)
Inductive regex : Type :=
| Eps                                        (* the empty pattern *)
| One (cs : cset)                            (* one character of [cs] *)
| Bol                                        (* [^] *)
| Eol                                        (* [$] *)
| Seq (r1 r2 : regex)                        (* [r1 r2] *)
| Alt (r1 r2 : regex)                        (* [r1|r2] *)
| Rep (greedy : bool) (min : nat) (cs : cset) (* [cs{min,}], [cs{min,}?] *)
| Grp (i : nat) (r : regex).                 (* capturing group number [i] *)

Definition Lit (c : ascii) : regex := One (CChar c).

(** A literal word, as [def] in [(def|class)]. *)
Fixpoint Word (w : str) : regex :=
  match w with
  | [] => Eps
  | [c] => Lit c
  | c :: w' => Seq (Lit c) (Word w')
  end.

Definition span : Type := (nat * nat)%type.

(** Matcher state: the offset reached, the text from there on and the
    spans of the groups closed so far (latest first). *)
Record state : Type := mkState {
  pos : nat;
  rest : str;
  caps : list (nat * span)
}.

Definition cont : Type := state -> option state.

Definition orelse {A : Type} (a b : option A) : option A :=
  match a with
  | Some x => Some x
  | None => b
  end.

(** [cs{min,}] from a state where [n] characters of [cs] were already
    taken.  Greedy: one more character first, stopping as fallback.
    Lazy: the other way round. *)
Fixpoint rep (cs : cset) (greedy : bool) (min : nat) (k : cont)
         (cp : list (nat * span)) (n : nat) (rst : str) (p : nat)
  : option state :=
  let stop :=
    if min <=? n then k (mkState p rst cp) else None in
  match rst with
  | c :: rst' =>
      if cset_mem cs c then
        if greedy
        then orelse (rep cs greedy min k cp (S n) rst' (S p)) stop
        else orelse stop (rep cs greedy min k cp (S n) rst' (S p))
      else stop
  | [] => stop
  end.

(** Backtracking matcher in continuation-passing style: [run r k st]
    matches [r] at [st] and hands every way of doing so to [k], in
    priority order, until [k] accepts. *)
Fixpoint run (r : regex) (k : cont) (st : state) : option state :=
  match r with
  | Eps => k st
  | One cs =>
      match rest st with
      | c :: rst' =>
          if cset_mem cs c
          then k (mkState (S (pos st)) rst' (caps st))
          else None
      | [] => None
      end
  | Bol => if pos st =? 0 then k st else None
  | Eol =>
      match rest st with
      | [] => k st
      | [c] => if eqb_char c newline then k st else None
      | _ => None
      end
  | Seq r1 r2 => run r1 (run r2 k) st
  | Alt r1 r2 => orelse (run r1 k st) (run r2 k st)
  | Rep greedy min cs => rep cs greedy min k (caps st) 0 (rest st) (pos st)
  | Grp i r' =>
      run r'
        (fun st' =>
           k (mkState (pos st') (rest st')
                ((i, (pos st, pos st')) :: caps st')))
        st
  end.

(** Number of capturing groups of a pattern. *)
Fixpoint ngroups (r : regex) : nat :=
  match r with
  | Seq r1 r2 | Alt r1 r2 => Nat.max (ngroups r1) (ngroups r2)
  | Grp i r' => Nat.max i (ngroups r')
  | _ => 0
  end.

(** Match objects. *)
Record Match : Type := mkMatch {
  m_string : str;
  m_start : nat;
  m_end : nat;
  m_groups : list (nat * span);
  m_ngroups : nat
}.

(** [s[b:e]] *)
Definition slice (s : str) (b e : nat) : str := firstn (e - b) (skipn b s).

Fixpoint lookup (i : nat) (l : list (nat * span)) : option span :=
  match l with
  | [] => None
  | (j, sp) :: l' => if i =? j then Some sp else lookup i l'
  end.

(** [m[i]]: the whole match for [i = 0], the text of group [i] or [None]
    when that group took no part; [IndexError] when the pattern has no
    such group. *)
Definition getitem (m : Match) (i : nat) : Res (option str) :=
  match i with
  | 0 => ret (Some (slice (m_string m) (m_start m) (m_end m)))
  | _ =>
      if i <=? m_ngroups m then
        ret (option_map (fun sp => slice (m_string m) (fst sp) (snd sp))
               (lookup i (m_groups m)))
      else raise IndexError
  end.

(** One attempt at offset [p].  With [must_advance] the attempt must not
    be an empty match. *)
Definition match_at (r : regex) (must_advance : bool) (p : nat) (rst : str)
  : option state :=
  run r
    (fun st => if must_advance && (pos st =? p) then None else Some st)
    (mkState p rst []).

Definition to_match (r : regex) (s : str) (p : nat) (st : state) : Match :=
  mkMatch s p (pos st) (caps st) (ngroups r).

(** [re.match(r, s)]: an attempt at offset 0 only. *)
Definition match_ (r : regex) (s : str) : option Match :=
  option_map (to_match r s 0) (match_at r false 0 s).

Fixpoint search_from (r : regex) (s : str) (p : nat) (rst : str)
  : option Match :=
  match match_at r false p rst with
  | Some st => Some (to_match r s p st)
  | None =>
      match rst with
      | [] => None
      | _ :: rst' => search_from r s (S p) rst'
      end
  end.

(** [re.search(r, s)]: the attempt at the leftmost offset that succeeds. *)
Definition search (r : regex) (s : str) : option Match :=
  search_from r s 0 s.

(** [re.sub(r, repl, s)] for a plain replacement string, scanning [s] from
    left to right.  [skip] counts the characters of the current match
    still to drop.  After an empty match the next attempt at the same
    offset must advance. *)
Fixpoint sub_loop (r : regex) (repl : str) (skip p : nat) (rst : str)
  : str :=
  match skip with
  | S skip' =>
      match rst with
      | _ :: rst' => sub_loop r repl skip' (S p) rst'
      | [] => []
      end
  | 0 =>
      let copy :=
        match rst with
        | c :: rst' => c :: sub_loop r repl 0 (S p) rst'
        | [] => []
        end in
      let drop (e : nat) :=
        match rst with
        | _ :: rst' => sub_loop r repl (e - S p) (S p) rst'
        | [] => []
        end in
      match match_at r false p rst with
      | None => copy
      | Some st =>
          if pos st =? p then
            repl ++
            match match_at r true p rst with
            | None => copy
            | Some st' => repl ++ drop (pos st')
            end
          else repl ++ drop (pos st)
      end
  end.

Definition sub (r : regex) (repl : str) (s : str) : str :=
  sub_loop r repl 0 0 s.

(** The continuation of a pattern that ends with the literal [q]. *)
Definition closing (q : ascii) : cont :=
  run (Lit q) (fun st => Some st).

(** Truth value of the result of [search] or [match]. *)
Definition truthy (m : option Match) : bool :=
  match m with Some _ => true | None => false end.

End Re.

(* ================================================================= *)
(** ** Issues and the line-level detectors *)

Import PyStr.

(** [class Issue].  Every call site of the constructor passes a line
    number, so [line_nbr] is a number. *)
Record Issue : Type := mkIssue {
  code : str;
  msg : str;
  line_nbr : nat
}.

(** The regular expressions of the source, in order of appearance. *)
Module Pat.
Import Re.

Definition dquote : ascii := "034"%char.

(** [[a-z_].*] *)
Definition snake : regex :=
  Seq (One (CUnion (CRange "a" "z") (CChar "_"))) (Rep true 0 CAny).

(** [^\s+] *)
Definition indent : regex := Seq Bol (Rep true 1 CSpace).

(** A pair of quotes [q] around a lazy [.*?]. *)
Definition quoted (q : ascii) : regex :=
  Seq (Lit q) (Seq (Rep false 0 CAny) (Lit q)).

(** ['.*?'] *)
Definition single_quoted : regex := quoted "'".

(** the same between double quotes *)
Definition double_quoted : regex := quoted dquote.

(** [#.*$] *)
Definition comment : regex :=
  Seq (Lit "#") (Seq (Rep true 0 CAny) Eol).

(** group 1 = [\s*], then [#] *)
Definition spaces_hash : regex :=
  Seq (Grp 1 (Rep true 0 CSpace)) (Lit "#").

(** a lazy [.*?], then group 1 = [#.*$] *)
Definition upto_comment : regex :=
  Seq (Rep false 0 CAny) (Grp 1 comment).

(** group 1 = [def|class], then [\s{2,}] *)
Definition keyword_spaces : regex :=
  Seq (Grp 1 (Alt (Word $"def") (Word $"class"))) (Rep true 2 CSpace).

(** [[A-Z].*] *)
Definition camel : regex :=
  Seq (One (CRange "A" "Z")) (Rep true 0 CAny).
End Pat.

(** [match[i]] where [match] may be [None]. *)
Definition subscript (m : option Re.Match) (i : nat) : Res (option str) :=
  match m with
  | None => raise TypeError
  | Some m' => Re.getitem m' i
  end.

(** [len(x)] where [x] may be [None]. *)
Definition len (x : option str) : Res nat :=
  match x with
  | None => raise TypeError
  | Some s => ret (List.length s)
  end.

(** [x.lower()] where [x] may be [None]. *)
Definition lower_of (x : option str) : Res str :=
  match x with
  | None => raise AttributeError
  | Some s => ret (lower s)
  end.

(** ["{x}"] inside an f-string. *)
Definition format (x : option str) : str :=
  match x with
  | None => $"None"
  | Some s => s
  end.

Definition is_snake_case (text : str) : option Re.Match :=
  Re.match_ Pat.snake text.

Definition get_issue_001 (line : str) (line_nbr : nat) : Res (list Issue) :=
  if 79 <? List.length line
  then ret [mkIssue $"S001" $"Too long" line_nbr]
  else ret [].

Definition get_issue_002 (line : str) (line_nbr : nat) : Res (list Issue) :=
  let match_ := Re.search Pat.indent line in
  if negb (Re.truthy match_) then ret []
  else
    m0 <- subscript match_ 0 ;;
    nbr_spaces <- len m0 ;;
    if nbr_spaces mod 4 =? 0 then ret []
    else ret [mkIssue $"S002" $"Indentation is not a multiple of four"
                line_nbr].

Definition get_issue_003 (line : str) (line_nbr : nat) : Res (list Issue) :=
  let line := Re.sub Pat.single_quoted $"" line in
  let line := Re.sub Pat.double_quoted $"" line in
  let line := Re.sub Pat.comment $"" line in
  if contains_char line ";"
  then ret [mkIssue $"S003" $"Unnecessary semicolon" line_nbr]
  else ret [].

Definition get_issue_004 (line : str) (line_nbr : nat) : Res (list Issue) :=
  if startswith line $"#" then ret []
  else
    let match_ := Re.search Pat.spaces_hash line in
    if negb (Re.truthy match_) then ret []
    else
      m1 <- subscript match_ 1 ;;
      nbr_spaces <- len m1 ;;
      if nbr_spaces <? 2
      then ret [mkIssue $"S004"
                  $"Less than two spaces before inline comments" line_nbr]
      else ret [].

Definition get_issue_005 (line : str) (line_nbr : nat) : Res (list Issue) :=
  let match_ := Re.search Pat.upto_comment line in
  if negb (Re.truthy match_) then ret []
  else
    line <- subscript match_ 0 ;;
    lowered <- lower_of line ;;
    if contains lowered $"todo"
    then ret [mkIssue $"S005" $"TODO found" line_nbr]
    else ret [].

Definition get_issue_006 (nbr_lines : nat) (line_nbr : nat)
  : Res (list Issue) :=
  if 2 <? nbr_lines
  then ret [mkIssue $"S006"
              $"More than two blank lines preceding a code line" line_nbr]
  else ret [].

Definition get_issue_007 (line : str) (line_nbr : nat) : Res (list Issue) :=
  let match_ := Re.search Pat.keyword_spaces line in
  if Re.truthy match_ then
    m1 <- subscript match_ 1 ;;
    ret [mkIssue $"S007"
           ($"Too many spaces after '" ++ format m1 ++ $"'") line_nbr]
  else ret [].

(** [enumerate(l, start)] *)
Definition enumerate {A : Type} (l : list A) (start : nat)
  : list (nat * A) :=
  combine (seq start (List.length l)) l.

(** The detectors run on one non-blank line, in the order of the loop
    body; [nbr_lines] is the count of blank lines carried into the line. *)
Definition line_issues (line : str) (line_nbr : nat) (nbr_lines : nat)
  : Res (list Issue) :=
  i1 <- get_issue_001 line line_nbr ;;
  i2 <- get_issue_002 line line_nbr ;;
  i3 <- get_issue_003 line line_nbr ;;
  i4 <- get_issue_004 line line_nbr ;;
  i5 <- get_issue_005 line line_nbr ;;
  i6 <- get_issue_006 nbr_lines line_nbr ;;
  i7 <- get_issue_007 line line_nbr ;;
  ret (i1 ++ i2 ++ i3 ++ i4 ++ i5 ++ i6 ++ i7).

(** The loop of [get_issues_by_line] over the numbered lines, with the
    running count of blank lines as its state. *)
Fixpoint scan_lines (lines : list (nat * str)) (preceding_empty_lines : nat)
  : Res (list Issue) :=
  match lines with
  | [] => ret []
  | (line_nbr, line) :: lines' =>
      if eqb (strip line) $"" then
        scan_lines lines' (preceding_empty_lines + 1)
      else
        here <- line_issues line line_nbr preceding_empty_lines ;;
        later <- scan_lines lines' 0 ;;
        ret (here ++ later)
  end.

Definition get_issues_by_line (text : str) : Res (list Issue) :=
  let lines := split Re.newline text in
  scan_lines (enumerate lines 1) 0.

(* ================================================================= *)
(** ** Syntax trees *)

(** The node classes of [ast] that the analyzer tells apart, with their
    child fields in the order of [_fields]; every other class is [Other]
    with its child nodes in that order.  Fields that hold no node in a
    tree built by [ast.parse(text)] and are not read by the analyzer are
    left out. *)
Inductive node : Type :=
| Module (body : list node)
| ClassDef (c : classdef)
| FunctionDef (f : funcdef)
| AsyncFunctionDef (f : funcdef)
| Assign (targets : list node) (value : node) (lineno : nat)
| Name (id : str) (ctx : node) (lineno : nat)
| List_ (elts : list node) (ctx : node) (lineno : nat)
| Dict (keys : list (option node)) (values : list node) (lineno : nat)
| Set_ (elts : list node) (lineno : nat)
| Lambda (args : arguments) (body : node) (lineno : nat)
| Other (children : list node)
with classdef : Type :=
| mk_classdef (name : str) (bases keywords body decorator_list : list node)
              (type_params : list node) (lineno : nat)
with funcdef : Type :=
| mk_funcdef (name : str) (args : arguments)
             (body decorator_list : list node) (returns : option node)
             (type_params : list node) (lineno : nat)
with arguments : Type :=
| mk_arguments (posonlyargs args : list arg) (vararg : option arg)
               (kwonlyargs : list arg) (kw_defaults : list (option node))
               (kwarg : option arg) (defaults : list node)
with arg : Type :=
| mk_arg (name : str) (annotation : option node) (lineno : nat).

Definition cls_name (c : classdef) : str :=
  let 'mk_classdef name _ _ _ _ _ _ := c in name.
Definition cls_lineno (c : classdef) : nat :=
  let 'mk_classdef _ _ _ _ _ _ lineno := c in lineno.

Definition fn_name (f : funcdef) : str :=
  let 'mk_funcdef name _ _ _ _ _ _ := f in name.
Definition fn_args (f : funcdef) : arguments :=
  let 'mk_funcdef _ args _ _ _ _ _ := f in args.
Definition fn_body (f : funcdef) : list node :=
  let 'mk_funcdef _ _ body _ _ _ _ := f in body.
Definition fn_lineno (f : funcdef) : nat :=
  let 'mk_funcdef _ _ _ _ _ _ lineno := f in lineno.

Definition args_args (a : arguments) : list arg :=
  let 'mk_arguments _ args _ _ _ _ _ := a in args.
Definition args_kw_defaults (a : arguments) : list (option node) :=
  let 'mk_arguments _ _ _ _ kw_defaults _ _ := a in kw_defaults.
Definition args_defaults (a : arguments) : list node :=
  let 'mk_arguments _ _ _ _ _ _ defaults := a in defaults.

Definition arg_arg (a : arg) : str :=
  let 'mk_arg name _ _ := a in name.
Definition arg_lineno (a : arg) : nat :=
  let 'mk_arg _ _ lineno := a in lineno.

(** Any object of class [ast.AST]. *)
Inductive AST : Type :=
| ANode (n : node)
| AArguments (a : arguments)
| AArg (a : arg).

Definition opt_list {A : Type} (o : option A) : list A :=
  match o with
  | Some a => [a]
  | None => []
  end.

(** The entries of a list field that are nodes. *)
Definition somes {A : Type} (l : list (option A)) : list A :=
  flat_map opt_list l.

(** [ast.iter_child_nodes] *)
Definition iter_child_nodes (a : AST) : list AST :=
  match a with
  | ANode (Module body) => map ANode body
  | ANode (ClassDef (mk_classdef _ bases keywords body decorator_list
                       type_params _)) =>
      map ANode (bases ++ keywords ++ body ++ decorator_list ++ type_params)
  | ANode (FunctionDef (mk_funcdef _ args body decorator_list returns
                          type_params _))
  | ANode (AsyncFunctionDef (mk_funcdef _ args body decorator_list returns
                               type_params _)) =>
      AArguments args ::
      map ANode (body ++ decorator_list ++ opt_list returns ++ type_params)
  | ANode (Assign targets value _) => map ANode (targets ++ [value])
  | ANode (Name _ ctx _) => [ANode ctx]
  | ANode (List_ elts ctx _) => map ANode (elts ++ [ctx])
  | ANode (Dict keys values _) => map ANode (somes keys ++ values)
  | ANode (Set_ elts _) => map ANode elts
  | ANode (Lambda args body _) => [AArguments args; ANode body]
  | ANode (Other children) => map ANode children
  | AArguments (mk_arguments posonlyargs args vararg kwonlyargs kw_defaults
                  kwarg defaults) =>
      map AArg (posonlyargs ++ args ++ opt_list vararg ++ kwonlyargs)
      ++ map ANode (somes kw_defaults)
      ++ map AArg (opt_list kwarg)
      ++ map ANode defaults
  | AArg (mk_arg _ annotation _) => map ANode (opt_list annotation)
  end.

(** Number of [AST] objects in a tree: the fuel of [walk]. *)
Fixpoint size_node (n : node) : nat :=
  match n with
  | Module body => S (list_sum (map size_node body))
  | ClassDef c => size_classdef c
  | FunctionDef f | AsyncFunctionDef f => size_funcdef f
  | Assign targets value _ =>
      S (list_sum (map size_node targets) + size_node value)
  | Name _ ctx _ => S (size_node ctx)
  | List_ elts ctx _ => S (list_sum (map size_node elts) + size_node ctx)
  | Dict keys values _ =>
      S (list_sum (map (fun k => match k with
                                 | Some k' => size_node k'
                                 | None => 0
                                 end) keys)
         + list_sum (map size_node values))
  | Set_ elts _ => S (list_sum (map size_node elts))
  | Lambda args body _ => S (size_arguments args + size_node body)
  | Other children => S (list_sum (map size_node children))
  end
with size_classdef (c : classdef) : nat :=
  match c with
  | mk_classdef _ bases keywords body decorator_list type_params _ =>
      S (list_sum (map size_node bases) + list_sum (map size_node keywords)
         + list_sum (map size_node body)
         + list_sum (map size_node decorator_list)
         + list_sum (map size_node type_params))
  end
with size_funcdef (f : funcdef) : nat :=
  match f with
  | mk_funcdef _ args body decorator_list returns type_params _ =>
      S (size_arguments args + list_sum (map size_node body)
         + list_sum (map size_node decorator_list)
         + match returns with Some r => size_node r | None => 0 end
         + list_sum (map size_node type_params))
  end
with size_arguments (a : arguments) : nat :=
  match a with
  | mk_arguments posonlyargs args vararg kwonlyargs kw_defaults kwarg
      defaults =>
      S (list_sum (map size_arg posonlyargs) + list_sum (map size_arg args)
         + match vararg with Some v => size_arg v | None => 0 end
         + list_sum (map size_arg kwonlyargs)
         + list_sum (map (fun d => match d with
                                   | Some d' => size_node d'
                                   | None => 0
                                   end) kw_defaults)
         + match kwarg with Some v => size_arg v | None => 0 end
         + list_sum (map size_node defaults))
  end
with size_arg (a : arg) : nat :=
  match a with
  | mk_arg _ annotation _ =>
      S (match annotation with Some t => size_node t | None => 0 end)
  end.

Definition size (a : AST) : nat :=
  match a with
  | ANode n => size_node n
  | AArguments a' => size_arguments a'
  | AArg a' => size_arg a'
  end.

(** The loop of [ast.walk]: pop the leftmost node of the queue, push its
    children on the right, yield it.  Returns the nodes yielded and the
    queue left when the fuel is spent. *)
Fixpoint walk_loop (fuel : nat) (todo : list AST) : list AST * list AST :=
  match fuel, todo with
  | _, [] => ([], [])
  | 0, _ :: _ => ([], todo)
  | S fuel', n :: todo' =>
      let (yielded, left) := walk_loop fuel' (todo' ++ iter_child_nodes n) in
      (n :: yielded, left)
  end.

(** [ast.walk] *)
Definition walk (tree : node) : list AST :=
  fst (walk_loop (size_node tree) [ANode tree]).

(* ================================================================= *)
(** ** The node-level detectors *)

Definition get_issue_008 (node : classdef) : list Issue :=
  let name := cls_name node in
  let match_ := Re.match_ Pat.camel name in
  if negb (Re.truthy match_)
  then [mkIssue $"S008"
          ($"Class name '" ++ name ++ $"' should use CamelCase")
          (cls_lineno node)]
  else [].

Definition get_issue_009 (node : funcdef) : list Issue :=
  let name := fn_name node in
  if negb (Re.truthy (is_snake_case name))
  then [mkIssue $"S009"
          ($"Function name '" ++ name ++ $"' should use snake_case")
          (fn_lineno node)]
  else [].

Definition get_issue_010 (node : funcdef) : list Issue :=
  flat_map
    (fun arg =>
       let name := arg_arg arg in
       if negb (Re.truthy (is_snake_case name))
       then [mkIssue $"S010"
               ($"Argument name '" ++ name ++ $"' should be snake case")
               (arg_lineno arg)]
       else [])
    (args_args (fn_args node)).

(** The inner loop of [get_issue_011] over the targets of one assignment.
    Only [Name] nodes have an [id]. *)
Definition target_issues (lineno : nat) (targets : list node) : list Issue :=
  flat_map
    (fun target =>
       match target with
       | Name name _ _ =>
           if negb (Re.truthy (is_snake_case name))
           then [mkIssue $"S011"
                   ($"Variable '" ++ name ++ $"' should be snake case")
                   lineno]
           else []
       | _ => []
       end)
    targets.

Definition get_issue_011 (node : funcdef) : list Issue :=
  flat_map
    (fun arg =>
       match arg with
       | Assign targets _ lineno => target_issues lineno targets
       | _ => []
       end)
    (fn_body node).

Definition get_issue_012 (node : funcdef) : list Issue :=
  flat_map
    (fun default =>
       match default with
       | List_ _ _ lineno | Dict _ _ lineno | Set_ _ lineno =>
           [mkIssue $"S012" $"Default argument value is mutable" lineno]
       | _ => []
       end)
    (args_defaults (fn_args node)).

(** The body of the loop of [get_issues_by_node] for one node. *)
Definition node_issues (node : AST) : list Issue :=
  (match node with
   | ANode (ClassDef c) => get_issue_008 c
   | _ => []
   end)
  ++
  (match node with
   | ANode (FunctionDef f) =>
       get_issue_009 f ++ get_issue_010 f ++ get_issue_011 f
       ++ get_issue_012 f
   | _ => []
   end).

(* ================================================================= *)
(** ** Sorting and reporting *)

(** The sort key of [check_file] and the order of Python tuples on it. *)
Definition sort_key (i : Issue) : nat * str := (line_nbr i, code i).

Definition key_leb (a b : nat * str) : bool :=
  (fst a <? fst b) || ((fst a =? fst b) && leb (snd a) (snd b)).

(** [sorted(l, key)] is a stable sort: insertion from the right, each
    element going before the first element that is not smaller. *)
Fixpoint insert_by {A : Type} (key : A -> nat * str) (x : A) (l : list A)
  : list A :=
  match l with
  | [] => [x]
  | y :: l' =>
      if key_leb (key x) (key y) then x :: l
      else y :: insert_by key x l'
  end.

Fixpoint sorted {A : Type} (key : A -> nat * str) (l : list A) : list A :=
  match l with
  | [] => []
  | x :: l' => insert_by key x (sorted key l')
  end.

(** [x] may stand before [y] in the order of the keys. *)
Definition key_le {A : Type} (key : A -> nat * str) (x y : A) : Prop :=
  key_leb (key x) (key y) = true.

(** [x] has the sort key [k]. *)
Definition same_key {A : Type} (key : A -> nat * str) (k : nat * str) (x : A)
  : bool :=
  (fst (key x) =? fst k) && eqb (snd (key x)) (snd k).

(** One printed line of the report. *)
Definition render (filepath : str) (issue : Issue) : str :=
  filepath ++ $": Line " ++ of_nat (line_nbr issue) ++ $": "
  ++ code issue ++ $" " ++ msg issue.

Section Analyzer.

(** [ast.parse]: the tree of a source text, or the exception raised. *)
Variable ast_parse : str -> Res node.

Definition get_issues_by_node (text : str) : Res (list Issue) :=
  tree <- ast_parse text ;;
  let nodes := walk tree in
  ret (flat_map node_issues nodes).

(** The sequence [check_file] iterates over. *)
Definition sorted_issues (text : str) : Res (list Issue) :=
  by_line <- get_issues_by_line text ;;
  by_node <- get_issues_by_node text ;;
  ret (sorted sort_key (by_line ++ by_node)).

(** [check_file] on the text read from [filepath]: the lines printed. *)
Definition check_file (filepath : str) (text : str) : Res (list str) :=
  issues <- sorted_issues text ;;
  ret (map (render filepath) issues).

End Analyzer.

(* ================================================================= *)
(** ** The properties, in the words of the specification

    These definitions follow the specification, not the code; the theorems
    below compare the code with them. *)

Module Spec.

(** A blank line: whitespace only. *)
Definition blank (line : str) : bool := forallb isspace line.

(** The first character is a lowercase ASCII letter or an underscore. *)
Definition lower_or_underscore (c : ascii) : bool :=
  in_range 97 122 c || (PyStr.code c =? 95).

Definition first_char_ok (name : str) : bool :=
  match name with
  | c :: _ => lower_or_underscore c
  | [] => false
  end.

(** The substring of a line from its first [#] to the end of the line. *)
Fixpoint comment_part (line : str) : str :=
  match line with
  | [] => []
  | c :: line' => if eqb_char c "#" then line else comment_part line'
  end.

(** The text before the first [#]: the line without a trailing comment. *)
Fixpoint remove_comment (line : str) : str :=
  match line with
  | [] => []
  | c :: line' => if eqb_char c "#" then [] else c :: remove_comment line'
  end.

(** The comment of the line contains "todo", in any letter case. *)
Definition todo_in_comment (line : str) : bool :=
  contains (lower (comment_part line)) $"todo".

(** A full-line comment: [#] is the first character that is not
    whitespace. *)
Definition full_line_comment (line : str) : bool :=
  startswith (lstrip line) $"#".

(** Removal of the string literals between quotes [q], scanning from the
    left: a quote opens a literal when another quote follows, and the
    nearest one closes it.  [inside] tells whether a literal is open. *)
Fixpoint remove_quoted (q : ascii) (inside : bool) (line : str) : str :=
  match line with
  | [] => []
  | c :: line' =>
      if inside then
        remove_quoted q (negb (eqb_char c q)) line'
      else if eqb_char c q && contains_char line' q then
        remove_quoted q true line'
      else c :: remove_quoted q false line'
  end.

(** A [;] remains after removing the single-quoted literals, then the
    double-quoted ones, then the trailing comment. *)
Definition semicolon_remains (line : str) : bool :=
  contains_char
    (remove_comment
       (remove_quoted Pat.dquote false (remove_quoted "'" false line)))
    ";".

(** Number of blank lines at the head of a list of lines. *)
Fixpoint leading_blanks (lines : list str) : nat :=
  match lines with
  | line :: lines' => if blank line then S (leading_blanks lines') else 0
  | [] => 0
  end.

(** The count of consecutive blank lines immediately preceding the line
    of index [k] (from 0): walk backwards from it while lines are
    blank. *)
Definition preceding_blanks (lines : list str) (k : nat) : nat :=
  leading_blanks (rev (firstn k lines)).

(** The order of the report: by line number, then by rule code. *)
Definition issue_le (a b : Issue) : Prop :=
  line_nbr a < line_nbr b
  \/ (line_nbr a = line_nbr b /\ leb (code a) (code b) = true).

(** A literal list, dictionary or set. *)
Definition mutable_literal (n : node) : bool :=
  match n with
  | List_ _ _ _ | Dict _ _ _ | Set_ _ _ => true
  | _ => false
  end.

Definition lineno_of (n : node) : option nat :=
  match n with
  | List_ _ _ l | Dict _ _ l | Set_ _ l => Some l
  | _ => None
  end.

End Spec.

(** Selecting the issues of one rule at one line. *)
Definition at_line (n : nat) (i : Issue) : bool := line_nbr i =? n.
Definition has_code (c : str) (i : Issue) : bool := eqb (code i) c.

(** The issues of rules S002 to S006. *)
Definition S002 (n : nat) : Issue :=
  mkIssue $"S002" $"Indentation is not a multiple of four" n.
Definition S003 (n : nat) : Issue :=
  mkIssue $"S003" $"Unnecessary semicolon" n.
Definition S004 (n : nat) : Issue :=
  mkIssue $"S004" $"Less than two spaces before inline comments" n.
Definition S005 (n : nat) : Issue := mkIssue $"S005" $"TODO found" n.
Definition S006 (n : nat) : Issue :=
  mkIssue $"S006" $"More than two blank lines preceding a code line" n.

Definition S010_for (a : arg) : Issue :=
  mkIssue $"S010"
    ($"Argument name '" ++ arg_arg a ++ $"' should be snake case")
    (arg_lineno a).

Definition S011_for (name : str) (lineno : nat) : Issue :=
  mkIssue $"S011" ($"Variable '" ++ name ++ $"' should be snake case")
    lineno.

Definition S012_at (lineno : nat) : Issue :=
  mkIssue $"S012" $"Default argument value is mutable" lineno.

(** A detector run that returns, with issues of rule [c] at line [n]
    only. *)
Definition emits_only (c : str) (n : nat) (r : Res (list Issue)) : Prop :=
  exists l, r = ret l /\ Forall (fun i => code i = c /\ line_nbr i = n) l.

(** The blank-line counter of the scanner after the lines [before],
    starting from [c]. *)
Definition counter_after (c : nat) (before : list str) : nat :=
  fold_left (fun acc line => if Spec.blank line then acc + 1 else 0)
    before c.

(** The asynchronous function definitions. *)
Definition is_async (a : AST) : bool :=
  match a with
  | ANode (AsyncFunctionDef _) => true
  | _ => false
  end.

(* ================================================================= *)
(** ** Sample trees *)

(** Expression contexts, constants and [pass] have no child nodes. *)
Definition Load : node := Other [].
Definition Store : node := Other [].
Definition Constant : node := Other [].
Definition Pass : node := Other [].

(** The tree of
<<
async def Bad(X=[]):
    Y = 1
>> *)
Definition async_sample : node :=
  Module
    [AsyncFunctionDef
       (mk_funcdef $"Bad"
          (mk_arguments [] [mk_arg $"X" None 1] None [] [] None
             [List_ [] Load 1])
          [Assign [Name $"Y" Store 2] Constant 2] [] None [] 1)].

(** The same definition without [async]. *)
Definition plain_sample : node :=
  Module
    [FunctionDef
       (mk_funcdef $"Bad"
          (mk_arguments [] [mk_arg $"X" None 1] None [] [] None
             [List_ [] Load 1])
          [Assign [Name $"Y" Store 2] Constant 2] [] None [] 1)].

(** The tree of a one-line function [f] with a positional parameter [x]
    and the keyword-only parameters [a=[]] and [b={}]. *)
Definition kwonly_sample : node :=
  Module
    [FunctionDef
       (mk_funcdef $"f"
          (mk_arguments [] [mk_arg $"x" None 1] None
             [mk_arg $"a" None 1; mk_arg $"b" None 1]
             [Some (List_ [] Load 1); Some (Dict [] [] 1)] None [])
          [Pass] [] None [] 1)].

(** The function definition of [def myFunc2(self): pass]. *)
Definition mixed_case_sample : funcdef :=
  mk_funcdef $"myFunc2"
    (mk_arguments [] [mk_arg $"self" None 1] None [] [] None [])
    [Pass] [] None [] 1.

(** The end-to-end scenario of the specification:
<<
class myClass:
    def  MyMethod(self, X):
        y = [1,2]; z = 5
>> *)
Definition scenario_text : str :=
  $"class myClass:" ++ Re.newline ::
  $"    def  MyMethod(self, X):" ++ Re.newline ::
  $"        y = [1,2]; z = 5".

Definition scenario_tree : node :=
  Module
    [ClassDef
       (mk_classdef $"myClass" [] []
          [FunctionDef
             (mk_funcdef $"MyMethod"
                (mk_arguments [] [mk_arg $"self" None 2; mk_arg $"X" None 2]
                   None [] [] None [])
                [Assign [Name $"y" Store 3]
                   (List_ [Constant; Constant] Load 3) 3;
                 Assign [Name $"z" Store 3] Constant 3]
                [] None [] 2)]
          [] [] 1)].

(** The function definition of
<<
def Bad(X=[]):
    Y = 1
>> *)
Definition bad_function : funcdef :=
  mk_funcdef $"Bad"
    (mk_arguments [] [mk_arg $"X" None 1] None [] [] None [List_ [] Load 1])
    [Assign [Name $"Y" Store 2] Constant 2] [] None [] 1.

(** Two functions with two badly named parameters each, and a stray
    semicolon on the second line:
<<
def f(A, B): pass
def g(C, D): pass;
>> *)
Definition ties_text : str :=
  $"def f(A, B): pass" ++ Re.newline :: $"def g(C, D): pass;".

Definition ties_tree : node :=
  Module
    [FunctionDef
       (mk_funcdef $"f"
          (mk_arguments [] [mk_arg $"A" None 1; mk_arg $"B" None 1]
             None [] [] None [])
          [Pass] [] None [] 1);
     FunctionDef
       (mk_funcdef $"g"
          (mk_arguments [] [mk_arg $"C" None 2; mk_arg $"D" None 2]
             None [] [] None [])
          [Pass] [] None [] 2)].

(** A text whose first line is eighty spaces and whose second line is
    eighty letters. *)
Definition long_lines_text : str :=
  repeat " "%char 80 ++ Re.newline :: repeat "x"%char 80.

(** A parser that knows one text. *)
Definition parse_only (text : str) (result : Res node) : str -> Res node :=
  fun t => if eqb t text then result else raise ValueError.

(* ================================================================= *)
(** ** The line rules in plain terms

    What each remaining line detector decides, written without regular
    expressions; the theorems of the last part prove that the detectors
    compute exactly this. *)

Module Plain.

(** Number of whitespace characters at the start of a line. *)
Fixpoint leading_spaces (line : str) : nat :=
  match line with
  | c :: line' => if isspace c then S (leading_spaces line') else 0
  | [] => 0
  end.

(** Number of whitespace characters immediately before the first [#] of a
    line, if it has one; [run] counts those seen since the last character
    that is not whitespace. *)
Fixpoint gap_before_hash (run : nat) (line : str) : option nat :=
  match line with
  | [] => None
  | c :: line' =>
      if eqb_char c "#" then Some run
      else if isspace c then gap_before_hash (S run) line'
      else gap_before_hash 0 line'
  end.

(** The text is whitespace followed by a [#]. *)
Fixpoint hash_after_spaces (s : str) : bool :=
  match s with
  | [] => false
  | c :: s' =>
      if eqb_char c "#" then true
      else if isspace c then hash_after_spaces s'
      else false
  end.

(** The text starts with two whitespace characters. *)
Definition two_spaces (s : str) : bool :=
  match s with
  | a :: b :: _ => isspace a && isspace b
  | _ => false
  end.

(** The keyword, [def] or [class], that stands at the start of the text
    and is followed by two whitespace characters. *)
Definition keyword_here (s : str) : option str :=
  if startswith s $"def" && two_spaces (skipn 3 s) then Some $"def"
  else if startswith s $"class" && two_spaces (skipn 5 s) then Some $"class"
  else None.

(** The keyword of the leftmost place where [keyword_here] holds. *)
Fixpoint first_keyword (line : str) : option str :=
  match keyword_here line with
  | Some kw => Some kw
  | None =>
      match line with
      | [] => None
      | _ :: line' => first_keyword line'
      end
  end.

(** The first character is an uppercase ASCII letter. *)
Definition upper_first (name : str) : bool :=
  match name with
  | c :: _ => in_range 65 90 c
  | [] => false
  end.

End Plain.

Definition S001 (n : nat) : Issue := mkIssue $"S001" $"Too long" n.

Definition S007_for (kw : str) (n : nat) : Issue :=
  mkIssue $"S007" ($"Too many spaces after '" ++ kw ++ $"'") n.

Definition S008_for (c : classdef) : Issue :=
  mkIssue $"S008" ($"Class name '" ++ cls_name c ++ $"' should use CamelCase")
    (cls_lineno c).

Definition S009_for (f : funcdef) : Issue :=
  mkIssue $"S009"
    ($"Function name '" ++ fn_name f ++ $"' should use snake_case")
    (fn_lineno f).

(** A detector run that returns no issue or one issue of rule [c] at line
    [n]. *)
Definition at_most_one (c : str) (n : nat) (r : Res (list Issue)) : Prop :=
  r = ret [] \/ exists m, r = ret [mkIssue c m n].

(* ================================================================= *)
(** ** All the nodes of a tree *)

(** The nodes of a tree in preorder: a node, then the nodes below each of
    its children, in the order of [iter_child_nodes]. *)
Fixpoint nodes_below (n : node) : list AST :=
  match n with
  | Module body => flat_map (fun x => ANode x :: nodes_below x) body
  | ClassDef c => below_classdef c
  | FunctionDef f | AsyncFunctionDef f => below_funcdef f
  | Assign targets value _ =>
      flat_map (fun x => ANode x :: nodes_below x) targets
      ++ ANode value :: nodes_below value
  | Name _ ctx _ => ANode ctx :: nodes_below ctx
  | List_ elts ctx _ =>
      flat_map (fun x => ANode x :: nodes_below x) elts
      ++ ANode ctx :: nodes_below ctx
  | Dict keys values _ =>
      flat_map (fun k => match k with
                         | Some x => ANode x :: nodes_below x
                         | None => []
                         end) keys
      ++ flat_map (fun x => ANode x :: nodes_below x) values
  | Set_ elts _ => flat_map (fun x => ANode x :: nodes_below x) elts
  | Lambda args body _ =>
      AArguments args :: below_arguments args
      ++ ANode body :: nodes_below body
  | Other children => flat_map (fun x => ANode x :: nodes_below x) children
  end
with below_classdef (c : classdef) : list AST :=
  match c with
  | mk_classdef _ bases keywords body decorator_list type_params _ =>
      flat_map (fun x => ANode x :: nodes_below x) bases
      ++ flat_map (fun x => ANode x :: nodes_below x) keywords
      ++ flat_map (fun x => ANode x :: nodes_below x) body
      ++ flat_map (fun x => ANode x :: nodes_below x) decorator_list
      ++ flat_map (fun x => ANode x :: nodes_below x) type_params
  end
with below_funcdef (f : funcdef) : list AST :=
  match f with
  | mk_funcdef _ args body decorator_list returns type_params _ =>
      AArguments args :: below_arguments args
      ++ flat_map (fun x => ANode x :: nodes_below x) body
      ++ flat_map (fun x => ANode x :: nodes_below x) decorator_list
      ++ match returns with
         | Some x => ANode x :: nodes_below x
         | None => []
         end
      ++ flat_map (fun x => ANode x :: nodes_below x) type_params
  end
with below_arguments (a : arguments) : list AST :=
  match a with
  | mk_arguments posonlyargs args vararg kwonlyargs kw_defaults kwarg
      defaults =>
      flat_map (fun x => AArg x :: below_arg x) posonlyargs
      ++ flat_map (fun x => AArg x :: below_arg x) args
      ++ match vararg with
         | Some x => AArg x :: below_arg x
         | None => []
         end
      ++ flat_map (fun x => AArg x :: below_arg x) kwonlyargs
      ++ flat_map (fun k => match k with
                            | Some x => ANode x :: nodes_below x
                            | None => []
                            end) kw_defaults
      ++ match kwarg with
         | Some x => AArg x :: below_arg x
         | None => []
         end
      ++ flat_map (fun x => ANode x :: nodes_below x) defaults
  end
with below_arg (a : arg) : list AST :=
  match a with
  | mk_arg _ annotation _ =>
      match annotation with
      | Some x => ANode x :: nodes_below x
      | None => []
      end
  end.

Definition below (a : AST) : list AST :=
  match a with
  | ANode n => nodes_below n
  | AArguments a' => below_arguments a'
  | AArg a' => below_arg a'
  end.

(** A node and everything below it. *)
Definition subtree (a : AST) : list AST := a :: below a.

(* ================================================================= *)
(** ** The main block *)

(** One path of [sorted(path.glob('*.py'))]: the text [str(filepath)], the
    last component [filepath.name], and what reading the file returns. *)
Record SourceFile : Type := mkFile {
  file_path : str;
  file_name : str;
  file_text : str
}.

(** [filepath.name == "tests.py"] *)
Definition is_tests (f : SourceFile) : bool := eqb (file_name f) $"tests.py".

Section Driver.

Variable ast_parse : str -> Res node.

(** The loop of the main block over the files of a directory, in the
    order of iteration: the lines printed, and the exception that ended
    the run, if one did. *)
Fixpoint check_files (files : list SourceFile) : list str * option exn :=
  match files with
  | [] => ([], None)
  | f :: files' =>
      if eqb (file_name f) $"tests.py" then check_files files'
      else
        match check_file ast_parse (file_path f) (file_text f) with
        | inl e => ([], Some e)
        | inr printed =>
            let (later, e) := check_files files' in (printed ++ later, e)
        end
  end.

End Driver.

(** A parser that knows the scenario and one text that does not parse. *)
Definition parse_samples (t : str) : Res node :=
  if eqb t scenario_text then ret scenario_tree
  else if eqb t $"def f(:" then raise SyntaxError
  else ret (Module []).

(** A directory with the scenario, a file that does not parse and a third
    file. *)
Definition sample_before : list SourceFile :=
  [mkFile $"src/a.py" $"a.py" scenario_text].
Definition sample_broken : SourceFile :=
  mkFile $"src/b.py" $"b.py" $"def f(:".
Definition sample_after : list SourceFile :=
  [mkFile $"src/c.py" $"c.py" $"x = 1;"].

(* ================================================================= *)
(** * Proofs *)

(** ** The error monad *)

Lemma bind_ret {A B : Type} (a : A) (f : A -> Res B) :
  bind (ret a) f = f a.
Proof. reflexivity. Qed.

Lemma bind_raise {A B : Type} (e : exn) (f : A -> Res B) :
  bind (raise e) f = raise e.
Proof. reflexivity. Qed.

Lemma bind_ret_inv {A B : Type} (m : Res A) (f : A -> Res B) (b : B) :
  bind m f = ret b -> exists a, m = ret a /\ f a = ret b.
Proof.
  destruct m as [e | a]; simpl; intros H.
  - discriminate H.
  - exists a. split; [reflexivity | exact H].
Qed.

(** ** Characters and strings *)

Lemma eqb_char_true (a b : ascii) : eqb_char a b = true <-> a = b.
Proof. unfold eqb_char. apply Ascii.eqb_eq. Qed.

Lemma eqb_char_false (a b : ascii) : eqb_char a b = false <-> a <> b.
Proof. unfold eqb_char. apply Ascii.eqb_neq. Qed.

Lemma eqb_char_refl (a : ascii) : eqb_char a a = true.
Proof. apply eqb_char_true. reflexivity. Qed.

Lemma eqb_char_sym (a b : ascii) : eqb_char a b = eqb_char b a.
Proof. unfold eqb_char. apply Ascii.eqb_sym. Qed.

Lemma eqb_true (a b : str) : eqb a b = true <-> a = b.
Proof.
  revert b. induction a as [| x a IH]; intros [| y b]; simpl;
    try (split; [discriminate | discriminate]); try tauto.
  rewrite andb_true_iff, eqb_char_true, IH.
  split.
  - intros [-> ->]. reflexivity.
  - intros H. injection H as -> ->. split; reflexivity.
Qed.

Lemma contains_char_In (s : str) (c : ascii) :
  contains_char s c = true <-> In c s.
Proof.
  unfold contains_char. rewrite existsb_exists. split.
  - intros [x [Hin Heq]]. apply eqb_char_true in Heq. subst x. exact Hin.
  - intros Hin. exists c. split; [exact Hin | apply eqb_char_refl].
Qed.

Lemma contains_char_false (s : str) (c : ascii) :
  contains_char s c = false <-> ~ In c s.
Proof.
  rewrite <- contains_char_In. destruct (contains_char s c); split;
    congruence.
Qed.

Lemma lstrip_nil_iff (s : str) : lstrip s = [] <-> forallb isspace s = true.
Proof.
  induction s as [| c s IH]; simpl.
  - tauto.
  - destruct (isspace c); simpl.
    + exact IH.
    + split; discriminate.
Qed.

Lemma lstrip_blank (s : str) : forallb isspace s = true -> lstrip s = [].
Proof. apply lstrip_nil_iff. Qed.

Lemma lstrip_suffix (s : str) :
  exists ws, s = ws ++ lstrip s /\ forallb isspace ws = true.
Proof.
  induction s as [| c s [ws [Heq Hws]]]; simpl.
  - exists []. split; reflexivity.
  - destruct (isspace c) eqn:Hc.
    + exists (c :: ws). simpl. rewrite Hc, Hws. split; [| reflexivity].
      f_equal. exact Heq.
    + exists []. split; reflexivity.
Qed.

Lemma forallb_rev' {A : Type} (f : A -> bool) (l : list A) :
  forallb f (rev l) = forallb f l.
Proof.
  induction l as [| x l IH]; simpl.
  - reflexivity.
  - rewrite forallb_app, IH. simpl. rewrite andb_true_r. apply andb_comm.
Qed.

(** [line.strip() == ""] holds exactly for the whitespace-only lines. *)
Lemma strip_empty_blank (line : str) :
  eqb (strip line) $"" = Spec.blank line.
Proof.
  unfold Spec.blank, strip, rstrip.
  destruct (forallb isspace line) eqn:Hb.
  - rewrite (lstrip_blank _ Hb). reflexivity.
  - destruct (eqb (rev (lstrip (rev (lstrip line)))) $"") eqn:He;
      [| reflexivity].
    apply eqb_true in He. change ($"") with (@nil ascii) in He.
    assert (Hr : lstrip (rev (lstrip line)) = []).
    { rewrite <- (rev_involutive (lstrip (rev (lstrip line)))), He.
      reflexivity. }
    apply lstrip_nil_iff in Hr. rewrite forallb_rev' in Hr.
    destruct (lstrip_suffix line) as [ws [Heq Hws]].
    rewrite Heq, forallb_app, Hws, Hr in Hb. discriminate Hb.
Qed.

(** ** The matcher *)

Module ReFacts.
Import Re.

(** A repetition hands to its continuation only states reached by taking
    characters of the set, at least [min] in all, with the groups
    unchanged. *)
Lemma rep_sound (cs : cset) (g : bool) (min : nat) (k : cont)
      (cp : list (nat * span)) :
  forall (rst : str) (n p : nat) (s : state),
    rep cs g min k cp n rst p = Some s ->
    exists taken rst',
      rst = taken ++ rst'
      /\ forallb (cset_mem cs) taken = true
      /\ min <= n + List.length taken
      /\ k (mkState (p + List.length taken) rst' cp) = Some s.
Proof.
  induction rst as [| c rst IH]; intros n p s H; simpl in H.
  - destruct (min <=? n) eqn:Hmin; [| discriminate H].
    apply Nat.leb_le in Hmin.
    exists [], []. simpl. rewrite !Nat.add_0_r. auto.
  - assert (Hstop :
        (if min <=? n then k (mkState p (c :: rst) cp) else None) = Some s ->
        exists taken rst',
          c :: rst = taken ++ rst'
          /\ forallb (cset_mem cs) taken = true
          /\ min <= n + List.length taken
          /\ k (mkState (p + List.length taken) rst' cp) = Some s).
    { intros Hs. destruct (min <=? n) eqn:Hmin; [| discriminate Hs].
      apply Nat.leb_le in Hmin.
      exists [], (c :: rst). simpl. rewrite !Nat.add_0_r. auto. }
    assert (Hmore :
        rep cs g min k cp (S n) rst (S p) = Some s ->
        cset_mem cs c = true ->
        exists taken rst',
          c :: rst = taken ++ rst'
          /\ forallb (cset_mem cs) taken = true
          /\ min <= n + List.length taken
          /\ k (mkState (p + List.length taken) rst' cp) = Some s).
    { intros Hs Hc. destruct (IH _ _ _ Hs) as [tk [r' [E [F [L K]]]]].
      exists (c :: tk), r'. simpl. rewrite Hc, F. subst rst.
      repeat split; try reflexivity; try lia.
      replace (p + S (List.length tk)) with (S p + List.length tk) by lia.
      exact K. }
    destruct (cset_mem cs c) eqn:Hc; [| apply Hstop; exact H].
    destruct g; unfold orelse in H.
    + destruct (rep cs true min k cp (S n) rst (S p)) eqn:Hr.
      * injection H as ->. apply Hmore; reflexivity.
      * apply Hstop. exact H.
    + destruct (if min <=? n then k (mkState p (c :: rst) cp) else None)
        eqn:Hs.
      * injection H as ->. apply Hstop. reflexivity.
      * apply Hmore; [exact H | reflexivity].
Qed.

(** A repetition succeeds when its continuation always does and the
    minimum is already reached. *)
Lemma rep_some (cs : cset) (g : bool) (min : nat) (k : cont)
      (cp : list (nat * span)) :
  (forall st, k st <> None) ->
  forall (rst : str) (n p : nat),
    min <= n -> rep cs g min k cp n rst p <> None.
Proof.
  intros Hk. induction rst as [| c rst IH]; intros n p Hmin; simpl;
    apply Nat.leb_le in Hmin as Hb; rewrite Hb.
  - apply Hk.
  - destruct (cset_mem cs c); [| apply Hk].
    destruct g; unfold orelse.
    + destruct (rep cs true min k cp (S n) rst (S p)); [discriminate |].
      apply Hk.
    + destruct (k (mkState p (c :: rst) cp)) eqn:Hs; [discriminate |].
      exfalso. apply (Hk _ Hs).
Qed.

(** A greedy repetition over text that lies wholly in the set stops at the
    end of the text when the continuation accepts there. *)
Lemma rep_greedy_all (cs : cset) (min : nat) (k : cont)
      (cp : list (nat * span)) :
  forall (rst : str) (n p : nat) (s : state),
    forallb (cset_mem cs) rst = true ->
    min <= n + List.length rst ->
    k (mkState (p + List.length rst) [] cp) = Some s ->
    rep cs true min k cp n rst p = Some s.
Proof.
  induction rst as [| c rst IH]; intros n p s Hall Hmin Hk; simpl in *.
  - rewrite Nat.add_0_r in *. apply Nat.leb_le in Hmin. rewrite Hmin.
    exact Hk.
  - apply andb_true_iff in Hall as [Hc Hall]. rewrite Hc.
    rewrite (IH (S n) (S p) s Hall); [reflexivity | lia |].
    replace (S p + List.length rst) with (p + S (List.length rst)) by lia.
    exact Hk.
Qed.

(** [search] reports an attempt that succeeded at some offset. *)
Lemma search_from_sound (r : regex) (s : str) :
  forall (rst : str) (p : nat) (m : Match),
    search_from r s p rst = Some m ->
    exists p' rst' st,
      match_at r false p' rst' = Some st /\ m = to_match r s p' st.
Proof.
  induction rst as [| c rst IH]; intros p m H; simpl in H.
  - destruct (match_at r false p []) as [st |] eqn:Hm; [| discriminate H].
    injection H as <-. exists p, [], st. auto.
  - destruct (match_at r false p (c :: rst)) as [st |] eqn:Hm.
    + injection H as <-. exists p, (c :: rst), st. auto.
    + apply IH in H. exact H.
Qed.

(** The whole match is always available. *)
Lemma getitem_0 (m : Match) :
  getitem m 0 = ret (Some (slice (m_string m) (m_start m) (m_end m))).
Proof. reflexivity. Qed.

(** One character of a set followed by [.*], anchored at offset 0: only the
    first character decides. *)
Lemma match_one_then_any (cs : cset) (s : str) :
  truthy (match_ (Seq (One cs) (Rep true 0 CAny)) s)
  = match s with
    | c :: _ => cset_mem cs c
    | [] => false
    end.
Proof.
  unfold match_, match_at. destruct s as [| c s]; simpl; [reflexivity |].
  destruct (cset_mem cs c); [| reflexivity].
  destruct (rep CAny true 0 (fun st => Some st) [] 0 s 1) eqn:Hr;
    [reflexivity |].
  exfalso. revert Hr. apply rep_some; [discriminate | lia].
Qed.

(** When [Pat.spaces_hash] matches, group 1 took part and holds
    whitespace. *)
Lemma spaces_hash_group (p : nat) (rst : str) (st : state) :
  match_at Pat.spaces_hash false p rst = Some st ->
  exists e,
    caps st = [(1, (p, e))]
    /\ exists ws, firstn (e - p) rst = ws
                  /\ forallb isspace ws = true /\ List.length ws = e - p.
Proof.
  unfold match_at, Pat.spaces_hash. simpl. intros H.
  apply rep_sound in H as [tk [r' [E [F [_ K]]]]]. simpl in K.
  destruct r' as [| c r']; [discriminate K |].
  destruct (eqb_char "#" c); [| discriminate K].
  injection K as <-. simpl.
  exists (p + List.length tk). split; [reflexivity |].
  exists tk. replace (p + List.length tk - p) with (List.length tk) by lia.
  subst rst. rewrite firstn_app, Nat.sub_diag, firstn_all. simpl.
  rewrite app_nil_r. auto.
Qed.

End ReFacts.

(** ** The line detectors return *)

Lemma emits_only_nil (c : str) (n : nat) : emits_only c n (ret []).
Proof. exists []. split; [reflexivity | constructor]. Qed.

Lemma emits_only_one (c m : str) (n : nat) :
  emits_only c n (ret [mkIssue c m n]).
Proof.
  exists [mkIssue c m n]. split; [reflexivity |].
  constructor; [split; reflexivity | constructor].
Qed.

Lemma emits_only_if (c m : str) (n : nat) (b : bool) :
  emits_only c n (if b then ret [mkIssue c m n] else ret []).
Proof. destruct b; [apply emits_only_one | apply emits_only_nil]. Qed.

Lemma get_issue_001_emits (line : str) (n : nat) :
  emits_only $"S001" n (get_issue_001 line n).
Proof. unfold get_issue_001. apply emits_only_if. Qed.

Lemma get_issue_002_emits (line : str) (n : nat) :
  emits_only $"S002" n (get_issue_002 line n).
Proof.
  unfold get_issue_002.
  destruct (Re.search Pat.indent line) as [m |]; simpl;
    [| apply emits_only_nil].
  destruct (_ =? 0); [apply emits_only_nil | apply emits_only_one].
Qed.

Lemma get_issue_003_emits (line : str) (n : nat) :
  emits_only $"S003" n (get_issue_003 line n).
Proof. unfold get_issue_003. apply emits_only_if. Qed.

Lemma get_issue_004_emits (line : str) (n : nat) :
  emits_only $"S004" n (get_issue_004 line n).
Proof.
  unfold get_issue_004.
  destruct (startswith line $"#"); [apply emits_only_nil |].
  destruct (Re.search Pat.spaces_hash line) as [m |] eqn:Hs; simpl;
    [| apply emits_only_nil].
  apply ReFacts.search_from_sound in Hs as [p [rst [st [Hm ->]]]].
  apply ReFacts.spaces_hash_group in Hm as [e [Hc _]].
  unfold Re.getitem, Re.to_match. simpl. rewrite Hc. simpl.
  apply emits_only_if.
Qed.

Lemma get_issue_005_emits (line : str) (n : nat) :
  emits_only $"S005" n (get_issue_005 line n).
Proof.
  unfold get_issue_005.
  destruct (Re.search Pat.upto_comment line) as [m |]; simpl;
    [| apply emits_only_nil].
  apply emits_only_if.
Qed.

Lemma get_issue_006_emits (c n : nat) :
  emits_only $"S006" n (get_issue_006 c n).
Proof. unfold get_issue_006. apply emits_only_if. Qed.

Lemma get_issue_007_emits (line : str) (n : nat) :
  emits_only $"S007" n (get_issue_007 line n).
Proof.
  unfold get_issue_007.
  destruct (Re.search Pat.keyword_spaces line) as [m |] eqn:Hs; simpl;
    [| apply emits_only_nil].
  apply ReFacts.search_from_sound in Hs as [p [rst [st [Hm ->]]]].
  unfold Re.getitem, Re.to_match. simpl.
  apply emits_only_one.
Qed.

(** The seven detectors of one line return, and what they return is the
    concatenation of their issues. *)
Lemma line_issues_parts (line : str) (n c : nat) :
  exists l1 l2 l3 l4 l5 l6 l7,
    get_issue_001 line n = ret l1 /\ get_issue_002 line n = ret l2
    /\ get_issue_003 line n = ret l3 /\ get_issue_004 line n = ret l4
    /\ get_issue_005 line n = ret l5 /\ get_issue_006 c n = ret l6
    /\ get_issue_007 line n = ret l7
    /\ line_issues line n c = ret (l1 ++ l2 ++ l3 ++ l4 ++ l5 ++ l6 ++ l7).
Proof.
  destruct (get_issue_001_emits line n) as [l1 [H1 _]].
  destruct (get_issue_002_emits line n) as [l2 [H2 _]].
  destruct (get_issue_003_emits line n) as [l3 [H3 _]].
  destruct (get_issue_004_emits line n) as [l4 [H4 _]].
  destruct (get_issue_005_emits line n) as [l5 [H5 _]].
  destruct (get_issue_006_emits c n) as [l6 [H6 _]].
  destruct (get_issue_007_emits line n) as [l7 [H7 _]].
  exists l1, l2, l3, l4, l5, l6, l7.
  unfold line_issues. rewrite H1, H2, H3, H4, H5, H6, H7.
  repeat split; reflexivity.
Qed.

Lemma emits_only_line (c : str) (n : nat) (r : Res (list Issue))
      (l : list Issue) :
  emits_only c n r -> r = ret l -> Forall (fun i => line_nbr i = n) l.
Proof.
  intros [l' [E F]] H. rewrite E in H. injection H as <-.
  eapply Forall_impl; [| exact F]. intros i [_ Hn]. exact Hn.
Qed.

Lemma line_issues_line (line : str) (n c : nat) :
  exists here,
    line_issues line n c = ret here
    /\ Forall (fun i => line_nbr i = n) here.
Proof.
  destruct (line_issues_parts line n c)
    as (l1 & l2 & l3 & l4 & l5 & l6 & l7
        & H1 & H2 & H3 & H4 & H5 & H6 & H7 & H).
  eexists. split; [exact H |].
  repeat (apply Forall_app; split).
  - exact (emits_only_line (get_issue_001_emits line n) H1).
  - exact (emits_only_line (get_issue_002_emits line n) H2).
  - exact (emits_only_line (get_issue_003_emits line n) H3).
  - exact (emits_only_line (get_issue_004_emits line n) H4).
  - exact (emits_only_line (get_issue_005_emits line n) H5).
  - exact (emits_only_line (get_issue_006_emits c n) H6).
  - exact (emits_only_line (get_issue_007_emits line n) H7).
Qed.

(** ** The line scanner *)

Lemma enumerate_cons {A : Type} (x : A) (l : list A) (start : nat) :
  enumerate (x :: l) start = (start, x) :: enumerate l (S start).
Proof. reflexivity. Qed.

Lemma filter_all {A : Type} (f : A -> bool) (l : list A) :
  Forall (fun x => f x = true) l -> filter f l = l.
Proof.
  induction 1 as [| x l Hx _ IH]; simpl.
  - reflexivity.
  - rewrite Hx, IH. reflexivity.
Qed.

Lemma filter_none {A : Type} (f : A -> bool) (l : list A) :
  Forall (fun x => f x = false) l -> filter f l = [].
Proof.
  induction 1 as [| x l Hx _ IH]; simpl.
  - reflexivity.
  - rewrite Hx, IH. reflexivity.
Qed.

(** The scanner returns; its issues carry the numbers of the lines
    scanned; and the issues at the number of a non-blank line are those of
    the detectors on that line, run with the counter the loop carries
    there. *)
Lemma scan_lines_spec :
  forall (lines : list str) (start c : nat),
  exists out,
    scan_lines (enumerate lines start) c = ret out
    /\ Forall (fun i => start <= line_nbr i < start + List.length lines) out
    /\ forall k line,
        nth_error lines k = Some line ->
        Spec.blank line = false ->
        exists here,
          line_issues line (start + k) (counter_after c (firstn k lines))
          = ret here
          /\ filter (at_line (start + k)) out = here.
Proof.
  induction lines as [| l0 lines IH]; intros start c.
  - exists []. split; [reflexivity |]. split; [constructor |].
    intros [| k] line H; discriminate H.
  - rewrite enumerate_cons. simpl scan_lines. rewrite strip_empty_blank.
    destruct (Spec.blank l0) eqn:Hb.
    + destruct (IH (S start) (c + 1)) as [out [Hs [Hr Hk]]].
      exists out. split; [exact Hs |]. split.
      * eapply Forall_impl; [| exact Hr]. simpl. intros i Hi. lia.
      * intros [| k] line Hn Hl; simpl in Hn.
        -- injection Hn as <-. congruence.
        -- destruct (Hk k line Hn Hl) as [here [Hh Hf]].
           exists here. unfold counter_after in *. simpl. rewrite Hb.
           replace (start + S k) with (S start + k) by lia. auto.
    + destruct (IH (S start) 0) as [later [Hs [Hr Hk]]].
      destruct (line_issues_line l0 start c) as [here0 [Hh0 Hl0]].
      exists (here0 ++ later). rewrite Hh0, Hs. split; [reflexivity |].
      split.
      * apply Forall_app. split.
        -- eapply Forall_impl; [| exact Hl0]. simpl. intros i Hi. lia.
        -- eapply Forall_impl; [| exact Hr]. simpl. intros i Hi. lia.
      * intros [| k] line Hn Hl; simpl in Hn.
        -- injection Hn as <-. exists here0. simpl.
           rewrite Nat.add_0_r. split; [exact Hh0 |].
           rewrite filter_app, filter_all, filter_none.
           ++ apply app_nil_r.
           ++ eapply Forall_impl; [| exact Hr]. simpl. intros i Hi.
              unfold at_line. apply Nat.eqb_neq. lia.
           ++ eapply Forall_impl; [| exact Hl0]. simpl. intros i Hi.
              unfold at_line. apply Nat.eqb_eq. exact Hi.
        -- destruct (Hk k line Hn Hl) as [here [Hh Hf]].
           exists here. unfold counter_after in *. simpl. rewrite Hb.
           replace (start + S k) with (S start + k) by lia.
           split; [exact Hh |].
           rewrite filter_app, filter_none; [exact Hf |].
           eapply Forall_impl; [| exact Hl0]. simpl. intros i Hi.
           unfold at_line. apply Nat.eqb_neq. lia.
Qed.

(** The counter the loop carries equals the count of blank lines
    immediately before the line. *)
Lemma counter_after_snoc (c : nat) (before : list str) (line : str) :
  counter_after c (before ++ [line])
  = if Spec.blank line then counter_after c before + 1 else 0.
Proof. unfold counter_after. rewrite fold_left_app. reflexivity. Qed.

Lemma counter_after_leading (before : list str) :
  counter_after 0 before = Spec.leading_blanks (rev before).
Proof.
  induction before as [| line before IH] using rev_ind.
  - reflexivity.
  - rewrite counter_after_snoc, rev_app_distr. simpl.
    destruct (Spec.blank line); [| reflexivity].
    rewrite IH. lia.
Qed.

(** The line pass returns, and at the number of each non-blank line its
    issues are those of the seven detectors, run with the count of blank
    lines immediately preceding. *)
Lemma get_issues_by_line_spec (text : str) :
  exists out,
    get_issues_by_line text = ret out
    /\ forall k line,
        nth_error (split Re.newline text) k = Some line ->
        Spec.blank line = false ->
        exists here,
          line_issues line (S k)
            (Spec.preceding_blanks (split Re.newline text) k) = ret here
          /\ filter (at_line (S k)) out = here.
Proof.
  unfold get_issues_by_line.
  destruct (scan_lines_spec (split Re.newline text) 1 0)
    as [out [Hs [_ Hk]]].
  exists out. split; [exact Hs |].
  intros k line Hn Hb. destruct (Hk k line Hn Hb) as [here [Hh Hf]].
  exists here. unfold Spec.preceding_blanks.
  rewrite <- counter_after_leading. auto.
Qed.

(** ** Substitution with the quote and comment patterns *)

Module SubFacts.
Import Re.

Lemma sub_loop_skip (r : regex) (repl : str) (k p : nat) (c : ascii)
      (rst : str) :
  sub_loop r repl (S k) p (c :: rst) = sub_loop r repl k (S p) rst.
Proof. reflexivity. Qed.

Lemma sub_loop_copy (r : regex) (repl : str) (p : nat) (c : ascii)
      (rst : str) :
  match_at r false p (c :: rst) = None ->
  sub_loop r repl 0 p (c :: rst) = c :: sub_loop r repl 0 (S p) rst.
Proof. intros H. simpl. rewrite H. reflexivity. Qed.

Lemma sub_loop_match (r : regex) (repl : str) (p : nat) (c : ascii)
      (rst : str) (st : state) :
  match_at r false p (c :: rst) = Some st ->
  pos st <> p ->
  sub_loop r repl 0 p (c :: rst)
  = repl ++ sub_loop r repl (pos st - S p) (S p) rst.
Proof.
  intros H Hp. simpl. rewrite H.
  apply Nat.eqb_neq in Hp. rewrite Hp. reflexivity.
Qed.

(** Dropping the rest of the text leaves nothing when the pattern does not
    match the empty text at the end. *)
Lemma sub_loop_skip_all (r : regex) (repl : str) :
  (forall p, match_at r false p [] = None) ->
  forall (rst : str) (p : nat),
    sub_loop r repl (List.length rst) p rst = [].
Proof.
  intros Hend. induction rst as [| c rst IH]; intros p.
  - simpl. rewrite Hend. reflexivity.
  - simpl List.length. rewrite sub_loop_skip. apply IH.
Qed.

Lemma no_newline_any (s : str) :
  ~ In newline s -> forallb (cset_mem CAny) s = true.
Proof.
  intros H. apply forallb_forall. intros c Hc. simpl.
  apply negb_true_iff, eqb_char_false. intros ->. exact (H Hc).
Qed.

(** [#.*$] replaced by nothing: the text before the first [#]. *)
Lemma sub_comment (rst : str) :
  ~ In newline rst ->
  forall p, sub_loop Pat.comment [] 0 p rst = Spec.remove_comment rst.
Proof.
  induction rst as [| c rst IH]; intros Hnl p.
  - reflexivity.
  - assert (Hnl' : ~ In newline rst) by (intros H; apply Hnl; right; exact H).
    simpl Spec.remove_comment. rewrite eqb_char_sym.
    destruct (eqb_char "#" c) eqn:Hc.
    + assert (Hm : match_at Pat.comment false p (c :: rst)
                   = Some (mkState (S p + List.length rst) [] [])).
      { unfold match_at, Pat.comment, Lit. simpl. rewrite Hc.
        apply ReFacts.rep_greedy_all.
        - apply no_newline_any. exact Hnl'.
        - lia.
        - reflexivity. }
      rewrite (@sub_loop_match _ [] _ _ _ _ Hm); [| simpl; lia].
      cbn [pos]. replace (S p + List.length rst - S p)
        with (List.length rst) by lia.
      rewrite sub_loop_skip_all; [reflexivity |].
      intros q. reflexivity.
    + rewrite sub_loop_copy.
      * f_equal. apply IH. exact Hnl'.
      * unfold match_at, Pat.comment, Lit. simpl. rewrite Hc. reflexivity.
Qed.

Lemma closing_cons (q c : ascii) (p : nat) (r : str)
      (cp : list (nat * span)) :
  closing q (mkState p (c :: r) cp)
  = if eqb_char q c then Some (mkState (S p) r cp) else None.
Proof. reflexivity. Qed.

(** The lazy [.*?] stops at the nearest closing quote. *)
Lemma lazy_to_quote (q : ascii) (cp : list (nat * span)) (post : str) :
  forall (pre : str) (n p : nat),
    ~ In q pre -> ~ In newline pre ->
    rep CAny false 0 (closing q) cp n (pre ++ q :: post) p
    = Some (mkState (p + List.length pre + 1) post cp).
Proof.
  induction pre as [| c pre IH]; intros n p Hq Hnl;
    cbn [app rep Nat.leb cset_mem]; rewrite closing_cons.
  - rewrite eqb_char_refl. unfold orelse.
    replace (p + List.length (@nil ascii) + 1) with (S p) by (simpl; lia).
    destruct (negb (eqb_char q newline)); reflexivity.
  - assert (Hc : eqb_char q c = false).
    { apply eqb_char_false. intros ->. apply Hq. left. reflexivity. }
    assert (Hn : eqb_char c newline = false).
    { apply eqb_char_false. intros ->. apply Hnl. left. reflexivity. }
    rewrite Hc, Hn. cbn [negb orelse].
    rewrite IH.
    + f_equal. f_equal. simpl. lia.
    + intros H. apply Hq. right. exact H.
    + intros H. apply Hnl. right. exact H.
Qed.

(** Without a closing quote the lazy [.*?] fails. *)
Lemma lazy_no_quote (q : ascii) (cp : list (nat * span)) :
  forall (rst : str) (n p : nat),
    ~ In q rst -> rep CAny false 0 (closing q) cp n rst p = None.
Proof.
  induction rst as [| c rst IH]; intros n p Hq;
    cbn [rep Nat.leb cset_mem].
  - reflexivity.
  - assert (Hc : eqb_char q c = false).
    { apply eqb_char_false. intros ->. apply Hq. left. reflexivity. }
    rewrite closing_cons, Hc. cbn [orelse].
    rewrite IH; [| intros H; apply Hq; right; exact H].
    destruct (negb (eqb_char c newline)); reflexivity.
Qed.

Lemma in_split_first (q : ascii) (l : str) :
  In q l -> exists pre post, l = pre ++ q :: post /\ ~ In q pre.
Proof.
  induction l as [| c l IH]; intros H.
  - destruct H.
  - destruct (ascii_dec c q) as [-> | Hne].
    + exists [], l. split; [reflexivity | intros []].
    + destruct H as [H | H]; [contradiction |].
      destruct (IH H) as [pre [post [-> Hpre]]].
      exists (c :: pre), post. split; [reflexivity |].
      intros [E | E]; [contradiction | exact (Hpre E)].
Qed.

(** Inside a literal: the characters up to the closing quote are dropped. *)
Lemma sub_quoted_inside (q : ascii) (post : str) :
  forall (pre : str) (p : nat),
    ~ In q pre ->
    sub_loop (Pat.quoted q) [] 0 (p + List.length pre + 1) post
    = Spec.remove_quoted q false post ->
    sub_loop (Pat.quoted q) [] (List.length pre + 1) p (pre ++ q :: post)
    = Spec.remove_quoted q true (pre ++ q :: post).
Proof.
  induction pre as [| c pre IH]; intros p Hq Hpost;
    cbn [app List.length Nat.add]; rewrite sub_loop_skip;
    cbn [Spec.remove_quoted].
  - rewrite eqb_char_refl. cbn [negb].
    rewrite <- Hpost. f_equal. simpl. lia.
  - assert (Hc : eqb_char c q = false).
    { apply eqb_char_false. intros ->. apply Hq. left. reflexivity. }
    rewrite Hc. cbn [negb]. apply IH.
    + intros H. apply Hq. right. exact H.
    + rewrite <- Hpost. f_equal. simpl. lia.
Qed.

(** The quoted pattern replaced by nothing removes the literals between
    quotes [q], nearest closing quote first. *)
Lemma sub_quoted (q : ascii) :
  forall (n : nat) (rst : str) (p : nat),
    List.length rst <= n ->
    ~ In newline rst ->
    sub_loop (Pat.quoted q) [] 0 p rst = Spec.remove_quoted q false rst.
Proof.
  induction n as [| n IH]; intros rst p Hlen Hnl.
  - destruct rst; [reflexivity | simpl in Hlen; lia].
  - destruct rst as [| c rst]; [reflexivity |].
    simpl in Hlen.
    assert (Hnl' : ~ In newline rst) by (intros H; apply Hnl; right; exact H).
    simpl Spec.remove_quoted.
    destruct (eqb_char c q) eqn:Hc.
    + apply eqb_char_true in Hc. subst c.
      destruct (contains_char rst q) eqn:Hin.
      * apply contains_char_In, in_split_first in Hin
          as [pre [post [-> Hpre]]].
        assert (Hm : match_at (Pat.quoted q) false p (q :: pre ++ q :: post)
                     = Some (mkState (S p + List.length pre + 1) post [])).
        { unfold match_at, Pat.quoted, Lit. simpl. rewrite eqb_char_refl.
          apply (@lazy_to_quote q [] post pre 0 (S p) Hpre).
          intros H. apply Hnl'. apply in_or_app. left. exact H. }
        rewrite (@sub_loop_match _ [] _ _ _ _ Hm); [| simpl; lia].
        cbn [pos].
        replace (S p + List.length pre + 1 - S p)
          with (List.length pre + 1) by lia.
        apply sub_quoted_inside; [exact Hpre |].
        apply IH.
        -- rewrite length_app in Hlen. simpl in Hlen. lia.
        -- intros H. apply Hnl'. apply in_or_app. right. right. exact H.
      * apply contains_char_false in Hin. simpl andb.
        rewrite sub_loop_copy.
        -- f_equal. apply IH; [lia | exact Hnl'].
        -- unfold match_at, Pat.quoted, Lit. simpl. rewrite eqb_char_refl.
           apply (@lazy_no_quote q [] rst 0 (S p) Hin).
    + simpl andb. rewrite sub_loop_copy.
      * f_equal. apply IH; [lia | exact Hnl'].
      * unfold match_at, Pat.quoted, Lit. simpl.
        rewrite eqb_char_sym, Hc. reflexivity.
Qed.

Lemma remove_quoted_incl (q c : ascii) :
  forall (s : str) (inside : bool),
    In c (Spec.remove_quoted q inside s) -> In c s.
Proof.
  induction s as [| x s IH]; intros inside H; simpl in H.
  - exact H.
  - destruct inside.
    + right. exact (IH _ H).
    + destruct (eqb_char x q && contains_char s q).
      * right. exact (IH _ H).
      * destruct H as [H | H]; [left; exact H | right; exact (IH _ H)].
Qed.

End SubFacts.

(** On a line without a newline, rule S003 fires exactly when a [;]
    remains after the three removals. *)
Lemma get_issue_003_spec (line : str) (n : nat) :
  ~ In Re.newline line ->
  get_issue_003 line n
  = ret (if Spec.semicolon_remains line then [S003 n] else []).
Proof.
  intros Hnl. unfold get_issue_003, Spec.semicolon_remains, Re.sub.
  change Pat.single_quoted with (Pat.quoted "'").
  change Pat.double_quoted with (Pat.quoted Pat.dquote).
  change ($"") with (@nil ascii).
  rewrite (@SubFacts.sub_quoted "'" _ line 0 (Nat.le_refl _) Hnl).
  assert (H1 : ~ In Re.newline (Spec.remove_quoted "'" false line)).
  { intros H. apply Hnl. eapply SubFacts.remove_quoted_incl. exact H. }
  rewrite (@SubFacts.sub_quoted Pat.dquote _ _ 0 (Nat.le_refl _) H1).
  rewrite SubFacts.sub_comment.
  - destruct (contains_char _ ";"); reflexivity.
  - intros H. apply H1. eapply SubFacts.remove_quoted_incl. exact H.
Qed.

(** ** Lines of a text *)

Lemma split_no_sep (sep : ascii) :
  forall (s : str) (line : str), In line (split sep s) -> ~ In sep line.
Proof.
  induction s as [| c s IH]; intros line H; simpl in H.
  - destruct H as [<- | []]. intros [].
  - destruct (eqb_char c sep) eqn:Hc.
    + destruct H as [<- | H]; [intros [] | exact (IH _ H)].
    + apply eqb_char_false in Hc.
      destruct (split sep s) as [| f fs] eqn:Hs.
      * destruct H as [<- | []]. intros [E | []]. congruence.
      * destruct H as [<- | H].
        -- intros [E | E]; [congruence |].
           exact (IH f (or_introl eq_refl) E).
        -- exact (IH line (or_intror H)).
Qed.

Lemma line_no_newline (text : str) (k : nat) (line : str) :
  nth_error (split Re.newline text) k = Some line -> ~ In Re.newline line.
Proof. intros H. eapply split_no_sep, nth_error_In, H. Qed.

(** ** Issues of one rule among those of a line *)

Lemma filter_code_same (c : str) (n : nat) (r : Res (list Issue))
      (l : list Issue) :
  emits_only c n r -> r = ret l -> filter (has_code c) l = l.
Proof.
  intros [l' [E F]] H. rewrite E in H. injection H as <-.
  apply filter_all. eapply Forall_impl; [| exact F].
  intros i [Hc _]. unfold has_code. apply eqb_true. exact Hc.
Qed.

Lemma filter_code_other (c c' : str) (n : nat) (r : Res (list Issue))
      (l : list Issue) :
  emits_only c' n r -> r = ret l -> eqb c' c = false ->
  filter (has_code c) l = [].
Proof.
  intros [l' [E F]] H Hne. rewrite E in H. injection H as <-.
  apply filter_none. eapply Forall_impl; [| exact F].
  intros i [Hc _]. unfold has_code. rewrite Hc. exact Hne.
Qed.

(** Among the issues of one line, those of rule S003 are the ones of
    [get_issue_003], and those of rule S006 the ones of [get_issue_006]. *)
Lemma line_issues_S003 (line : str) (n c : nat) (here : list Issue) :
  line_issues line n c = ret here ->
  get_issue_003 line n = ret (filter (has_code $"S003") here).
Proof.
  destruct (line_issues_parts line n c)
    as (l1 & l2 & l3 & l4 & l5 & l6 & l7
        & H1 & H2 & H3 & H4 & H5 & H6 & H7 & H).
  intros Hh. rewrite H in Hh. injection Hh as <-.
  rewrite !filter_app.
  rewrite (@filter_code_other $"S003" _ _ _ _ (get_issue_001_emits line n) H1 eq_refl).
  rewrite (@filter_code_other $"S003" _ _ _ _ (get_issue_002_emits line n) H2 eq_refl).
  rewrite (@filter_code_same _ _ _ _ (get_issue_003_emits line n) H3).
  rewrite (@filter_code_other $"S003" _ _ _ _ (get_issue_004_emits line n) H4 eq_refl).
  rewrite (@filter_code_other $"S003" _ _ _ _ (get_issue_005_emits line n) H5 eq_refl).
  rewrite (@filter_code_other $"S003" _ _ _ _ (get_issue_006_emits c n) H6 eq_refl).
  rewrite (@filter_code_other $"S003" _ _ _ _ (get_issue_007_emits line n) H7 eq_refl).
  simpl. rewrite app_nil_r. exact H3.
Qed.

Lemma line_issues_S006 (line : str) (n c : nat) (here : list Issue) :
  line_issues line n c = ret here ->
  get_issue_006 c n = ret (filter (has_code $"S006") here).
Proof.
  destruct (line_issues_parts line n c)
    as (l1 & l2 & l3 & l4 & l5 & l6 & l7
        & H1 & H2 & H3 & H4 & H5 & H6 & H7 & H).
  intros Hh. rewrite H in Hh. injection Hh as <-.
  rewrite !filter_app.
  rewrite (@filter_code_other $"S006" _ _ _ _ (get_issue_001_emits line n) H1 eq_refl).
  rewrite (@filter_code_other $"S006" _ _ _ _ (get_issue_002_emits line n) H2 eq_refl).
  rewrite (@filter_code_other $"S006" _ _ _ _ (get_issue_003_emits line n) H3 eq_refl).
  rewrite (@filter_code_other $"S006" _ _ _ _ (get_issue_004_emits line n) H4 eq_refl).
  rewrite (@filter_code_other $"S006" _ _ _ _ (get_issue_005_emits line n) H5 eq_refl).
  rewrite (@filter_code_same _ _ _ _ (get_issue_006_emits c n) H6).
  rewrite (@filter_code_other $"S006" _ _ _ _ (get_issue_007_emits line n) H7 eq_refl).
  simpl. rewrite app_nil_r. exact H6.
Qed.

(* ================================================================= *)
(** * The line scanner: rules S003 and S006, totality *)

(** C5. For every non-blank line of a text, the issues of rule S003
    (UnnecessarySemicolon) reported at that line are: exactly one when a
    semicolon remains after removing the single-quoted literals (nearest
    closing quote), then the double-quoted ones, then the trailing comment
    from the first [#]; none otherwise. *)
Theorem semicolon_after_stripping :
  forall (text : str) (k : nat) (line : str),
    nth_error (split Re.newline text) k = Some line ->
    Spec.blank line = false ->
    exists out,
      get_issues_by_line text = ret out
      /\ filter (has_code $"S003") (filter (at_line (S k)) out)
         = if Spec.semicolon_remains line then [S003 (S k)] else [].
Proof.
  intros text k line Hn Hb.
  destruct (get_issues_by_line_spec text) as [out [Ho Hk]].
  exists out. split; [exact Ho |].
  destruct (Hk k line Hn Hb) as [here [Hh ->]].
  apply line_issues_S003 in Hh.
  rewrite (@get_issue_003_spec line (S k) (line_no_newline _ _ Hn)) in Hh.
  unfold ret in Hh. congruence.
Qed.

Lemma semicolon_after_stripping_witness :
  nth_error (split Re.newline $"x = 1; y = 2") 0 = Some $"x = 1; y = 2"
  /\ Spec.blank $"x = 1; y = 2" = false
  /\ exists out,
      get_issues_by_line $"x = 1; y = 2" = ret out
      /\ filter (has_code $"S003") (filter (at_line 1) out) = [S003 1].
Proof.
  split; [reflexivity |]. split; [reflexivity |].
  exact (@semicolon_after_stripping $"x = 1; y = 2" 0 _ eq_refl eq_refl).
Defined.

(** The two lines named by the specification. *)
Example semicolon_inside_comment :
  get_issues_by_line $"x = 1  # comment; with semicolon" = ret [].
Proof. vm_compute. reflexivity. Qed.

Example semicolon_between_statements :
  get_issues_by_line $"x = 1; y = 2" = ret [S003 1].
Proof. vm_compute. reflexivity. Qed.

(** C6. For every non-blank line of a text, the issues of rule S006
    (ExcessBlankLines) reported at that line are: exactly one when more
    than two consecutive blank lines immediately precede it; none
    otherwise.  Blank lines before an earlier non-blank line do not
    count. *)
Theorem excess_blank_lines :
  forall (text : str) (k : nat) (line : str),
    nth_error (split Re.newline text) k = Some line ->
    Spec.blank line = false ->
    exists out,
      get_issues_by_line text = ret out
      /\ filter (has_code $"S006") (filter (at_line (S k)) out)
         = if 2 <? Spec.preceding_blanks (split Re.newline text) k
           then [S006 (S k)] else [].
Proof.
  intros text k line Hn Hb.
  destruct (get_issues_by_line_spec text) as [out [Ho Hk]].
  exists out. split; [exact Ho |].
  destruct (Hk k line Hn Hb) as [here [Hh ->]].
  apply line_issues_S006 in Hh. unfold get_issue_006 in Hh.
  unfold ret, S006 in *.
  destruct (2 <? Spec.preceding_blanks _ _); congruence.
Qed.

Lemma excess_blank_lines_witness :
  let text := Re.newline :: Re.newline :: Re.newline :: $"x = 1" in
  nth_error (split Re.newline text) 3 = Some $"x = 1"
  /\ Spec.blank $"x = 1" = false
  /\ exists out,
      get_issues_by_line text = ret out
      /\ filter (has_code $"S006") (filter (at_line 4) out) = [S006 4].
Proof.
  split; [reflexivity |]. split; [reflexivity |].
  exact (@excess_blank_lines
           (Re.newline :: Re.newline :: Re.newline :: $"x = 1") 3 _
           eq_refl eq_refl).
Defined.

(** The boundary named by the specification: two blank lines, then
    three, and a run of three that an earlier code line interrupts. *)
Example two_blank_lines :
  get_issues_by_line (Re.newline :: Re.newline :: $"x = 1") = ret [].
Proof. vm_compute. reflexivity. Qed.

Example three_blank_lines :
  get_issues_by_line (Re.newline :: Re.newline :: Re.newline :: $"x = 1")
  = ret [S006 4].
Proof. vm_compute. reflexivity. Qed.

Example counter_reset :
  get_issues_by_line
    (Re.newline :: Re.newline :: $"y = 2"
     ++ Re.newline :: Re.newline :: Re.newline :: $"x = 1")
  = ret [].
Proof. vm_compute. reflexivity. Qed.

(** C8. On every text the line pass returns a list of issues, and each of
    the seven line detectors returns on every line and line number (on
    every counter for S006): none of them raises. *)
Theorem line_pass_total :
  (forall text : str, exists out, get_issues_by_line text = ret out)
  /\ (forall (line : str) (n : nat),
         (exists l, get_issue_001 line n = ret l)
         /\ (exists l, get_issue_002 line n = ret l)
         /\ (exists l, get_issue_003 line n = ret l)
         /\ (exists l, get_issue_004 line n = ret l)
         /\ (exists l, get_issue_005 line n = ret l)
         /\ (forall c, exists l, get_issue_006 c n = ret l)
         /\ (exists l, get_issue_007 line n = ret l)).
Proof.
  split.
  - intros text. destruct (get_issues_by_line_spec text) as [out [Ho _]].
    exists out. exact Ho.
  - intros line n.
    destruct (line_issues_parts line n 0)
      as (l1 & l2 & l3 & l4 & l5 & l6 & l7
          & H1 & H2 & H3 & H4 & H5 & H6 & H7 & _).
    repeat split; eauto.
    intros c. destruct (get_issue_006_emits c n) as [l [H _]]. eauto.
Qed.

(* ================================================================= *)
(** * The naming predicate *)

Lemma code_inj (a b : ascii) : PyStr.code a = PyStr.code b -> a = b.
Proof.
  unfold PyStr.code. intros H.
  rewrite <- (ascii_nat_embedding a), <- (ascii_nat_embedding b), H.
  reflexivity.
Qed.

Lemma eqb_char_code (a b : ascii) :
  eqb_char a b = (PyStr.code b =? PyStr.code a).
Proof.
  destruct (eqb_char a b) eqn:H; symmetry.
  - apply eqb_char_true in H. subst b. apply Nat.eqb_refl.
  - apply Nat.eqb_neq. intros E. apply eqb_char_false in H.
    apply H. apply code_inj. symmetry. exact E.
Qed.

(** [is_snake_case] succeeds exactly when the first character is a
    lowercase ASCII letter or an underscore. *)
Lemma is_snake_case_first (name : str) :
  Re.truthy (is_snake_case name) = Spec.first_char_ok name.
Proof.
  unfold is_snake_case, Pat.snake.
  rewrite ReFacts.match_one_then_any.
  destruct name as [| c name]; [reflexivity |].
  unfold Spec.first_char_ok, Spec.lower_or_underscore.
  cbn [Re.cset_mem]. rewrite eqb_char_code. reflexivity.
Qed.

Lemma get_issue_010_In (f : funcdef) (i : Issue) :
  In i (get_issue_010 f)
  <-> exists a,
      In a (args_args (fn_args f))
      /\ Spec.first_char_ok (arg_arg a) = false
      /\ i = S010_for a.
Proof.
  unfold get_issue_010. rewrite in_flat_map. split.
  - intros [a [Ha Hi]]. exists a. split; [exact Ha |].
    rewrite is_snake_case_first in Hi.
    destruct (Spec.first_char_ok (arg_arg a)); simpl in Hi.
    + destruct Hi.
    + destruct Hi as [<- | []]. split; reflexivity.
  - intros [a [Ha [Hf ->]]]. exists a. split; [exact Ha |].
    rewrite is_snake_case_first, Hf. left. reflexivity.
Qed.

Lemma target_issues_In (lineno : nat) (targets : list node) (i : Issue) :
  In i (target_issues lineno targets)
  <-> exists name ctx l,
      In (Name name ctx l) targets
      /\ Spec.first_char_ok name = false
      /\ i = S011_for name lineno.
Proof.
  unfold target_issues. rewrite in_flat_map. split.
  - intros [t [Ht Hi]].
    destruct t as [| | | | | name ctx l | | | | |]; simpl in Hi;
      try contradiction.
    exists name, ctx, l. split; [exact Ht |].
    rewrite is_snake_case_first in Hi.
    destruct (Spec.first_char_ok name); simpl in Hi; [contradiction |].
    destruct Hi as [<- | []]. split; reflexivity.
  - intros [name [ctx [l [Ht [Hf ->]]]]]. exists (Name name ctx l).
    split; [exact Ht |]. rewrite is_snake_case_first, Hf.
    left. reflexivity.
Qed.

Lemma get_issue_011_In (f : funcdef) (i : Issue) :
  In i (get_issue_011 f)
  <-> exists targets value lineno name ctx l,
      In (Assign targets value lineno) (fn_body f)
      /\ In (Name name ctx l) targets
      /\ Spec.first_char_ok name = false
      /\ i = S011_for name lineno.
Proof.
  unfold get_issue_011. rewrite in_flat_map. split.
  - intros [s [Hs Hi]].
    destruct s as [| | | | targets value lineno | | | | | |];
      simpl in Hi; try contradiction.
    exists targets, value, lineno.
    apply target_issues_In in Hi as [name [ctx [l [H1 [H2 H3]]]]].
    exists name, ctx, l. auto.
  - intros (targets & value & lineno & name & ctx & l & Hs & Ht & Hf & E).
    exists (Assign targets value lineno). split; [exact Hs |].
    apply target_issues_In. exists name, ctx, l. auto.
Qed.

(** C7. A function whose name starts with a lowercase ASCII letter or an
    underscore gets no S009 issue, whatever the other characters are:
    [get_issue_009] looks at the first character of the name only.  The
    same first-character test decides, for every function whatever its
    own name, S010 for each parameter of [args.args] and S011 for each
    plain-name target of an assignment in the function's body. *)
Theorem naming_first_character_only :
  (forall (f : funcdef) (c : ascii) (rest : str),
      fn_name f = c :: rest ->
      Spec.lower_or_underscore c = true ->
      get_issue_009 f = [])
  /\ (forall f : funcdef,
         get_issue_009 f
         = if Spec.first_char_ok (fn_name f) then [] else [S009_for f])
  /\ (forall (f : funcdef) (i : Issue),
         In i (get_issue_010 f)
         <-> exists a,
             In a (args_args (fn_args f))
             /\ Spec.first_char_ok (arg_arg a) = false
             /\ i = S010_for a)
  /\ (forall (f : funcdef) (i : Issue),
         In i (get_issue_011 f)
         <-> exists targets value lineno name ctx l,
             In (Assign targets value lineno) (fn_body f)
             /\ In (Name name ctx l) targets
             /\ Spec.first_char_ok name = false
             /\ i = S011_for name lineno).
Proof.
  split; [| split; [| split]].
  - intros f c rest Hname Hc.
    unfold get_issue_009. rewrite is_snake_case_first, Hname. simpl.
    rewrite Hc. reflexivity.
  - intros f. unfold get_issue_009. rewrite is_snake_case_first.
    destruct (Spec.first_char_ok (fn_name f)); reflexivity.
  - intros f i. apply get_issue_010_In.
  - intros f i. apply get_issue_011_In.
Qed.

(** A well named function with mixed case after the first character, and
    a badly named function whose parameter and variable are reported all
    the same. *)
Lemma naming_first_character_only_witness :
  (fn_name mixed_case_sample = "m"%char :: $"yFunc2"
   /\ Spec.lower_or_underscore "m" = true
   /\ get_issue_009 mixed_case_sample = [])
  /\ get_issue_009 bad_function
     = [mkIssue $"S009" $"Function name 'Bad' should use snake_case" 1]
  /\ In (mkIssue $"S010" $"Argument name 'X' should be snake case" 1)
        (get_issue_010 bad_function)
  /\ In (mkIssue $"S011" $"Variable 'Y' should be snake case" 2)
        (get_issue_011 bad_function).
Proof.
  destruct naming_first_character_only as [H9 [H9' [H10 H11]]].
  split; [| split; [| split]].
  - split; [reflexivity |]. split; [reflexivity |].
    exact (H9 mixed_case_sample "m"%char $"yFunc2" eq_refl eq_refl).
  - exact (H9' bad_function).
  - apply (H10 bad_function). exists (mk_arg $"X" None 1).
    split; [left; reflexivity |]. split; reflexivity.
  - apply (H11 bad_function).
    exists [Name $"Y" Store 2], Constant, 2, ($"Y"), Store, 2.
    split; [left; reflexivity |]. split; [left; reflexivity |].
    split; reflexivity.
Defined.

(** The names of the specification's examples. *)
Example function_name_upper :
  get_issue_009 (mk_funcdef $"MyFunction" (mk_arguments [] [] None [] []
                                            None []) [Pass] [] None [] 3)
  = [mkIssue $"S009" $"Function name 'MyFunction' should use snake_case" 3].
Proof. vm_compute. reflexivity. Qed.

Example function_name_mixed :
  get_issue_009 (mk_funcdef $"my_Function9" (mk_arguments [] [] None [] []
                                              None []) [Pass] [] None [] 3)
  = [].
Proof. vm_compute. reflexivity. Qed.

(* ================================================================= *)
(** * The walk visits every node *)

Lemma list_sum_map_ANode (l : list node) :
  list_sum (map size (map ANode l)) = list_sum (map size_node l).
Proof. rewrite map_map. reflexivity. Qed.

Lemma list_sum_map_AArg (l : list arg) :
  list_sum (map size (map AArg l)) = list_sum (map size_arg l).
Proof. rewrite map_map. reflexivity. Qed.

Lemma list_sum_somes (l : list (option node)) :
  list_sum (map size_node (somes l))
  = list_sum (map (fun o => match o with
                            | Some n => size_node n
                            | None => 0
                            end) l).
Proof.
  unfold somes.
  induction l as [| [n |] l IH]; simpl; [reflexivity | | exact IH].
  rewrite IH. reflexivity.
Qed.

Lemma list_sum_opt_node (o : option node) :
  list_sum (map size_node (opt_list o))
  = match o with Some n => size_node n | None => 0 end.
Proof. destruct o; simpl; lia. Qed.

Lemma list_sum_opt_arg (o : option arg) :
  list_sum (map size_arg (opt_list o))
  = match o with Some a => size_arg a | None => 0 end.
Proof. destruct o; simpl; lia. Qed.

(** A node counts for one more than its children together. *)
Lemma size_children (a : AST) :
  size a = S (list_sum (map size (iter_child_nodes a))).
Proof.
  destruct a as [n | a | a].
  - destruct n as [body | [name bases keywords body decos tps l]
                  | [name args body decos returns tps l]
                  | [name args body decos returns tps l]
                  | targets value l | id ctx l | elts ctx l
                  | keys values l | elts l | args body l | children];
      cbn [iter_child_nodes size size_node size_classdef size_funcdef];
      rewrite ?map_cons, ?map_app, ?list_sum_map_ANode;
      change (list_sum (?x :: ?l)) with (x + list_sum l);
      rewrite ?list_sum_app, ?list_sum_map_ANode, ?list_sum_somes,
        ?list_sum_opt_node;
      simpl; lia.
  - destruct a as [po args va kwo kwd kwa defaults].
    cbn [iter_child_nodes size size_arguments].
    rewrite ?map_app, ?list_sum_app, ?list_sum_map_ANode,
      ?list_sum_map_AArg, ?map_app, ?list_sum_app, ?list_sum_somes,
      ?list_sum_opt_arg.
    simpl. lia.
  - destruct a as [name annotation l].
    cbn [iter_child_nodes size size_arg].
    rewrite list_sum_map_ANode, list_sum_opt_node. reflexivity.
Qed.

(** With the nodes of the queue as fuel the loop of [walk] empties the
    queue; the nodes yielded then contain the queue and the children of
    every node yielded. *)
Lemma walk_loop_complete :
  forall (fuel : nat) (todo : list AST),
    list_sum (map size todo) <= fuel ->
    snd (walk_loop fuel todo) = []
    /\ incl todo (fst (walk_loop fuel todo))
    /\ forall a, In a (fst (walk_loop fuel todo)) ->
                 incl (iter_child_nodes a) (fst (walk_loop fuel todo)).
Proof.
  induction fuel as [| fuel IH]; intros todo Hfuel.
  - destruct todo as [| n todo].
    + simpl. repeat split; [apply incl_nil_l | intros a []].
    + simpl in Hfuel. rewrite (size_children n) in Hfuel. lia.
  - destruct todo as [| n todo].
    + simpl. repeat split; [apply incl_nil_l | intros a []].
    + simpl walk_loop.
      destruct (walk_loop fuel (todo ++ iter_child_nodes n))
        as [yielded left] eqn:Hw.
      destruct (IH (todo ++ iter_child_nodes n)) as [Hl [Hi Hc]].
      { rewrite map_app, list_sum_app. simpl in Hfuel.
        rewrite (size_children n) in Hfuel. lia. }
      rewrite Hw in Hl, Hi, Hc. simpl in Hl, Hi, Hc. simpl.
      split; [exact Hl |]. split.
      * intros a [<- | Ha]; [left; reflexivity |].
        right. apply Hi. apply in_or_app. left. exact Ha.
      * intros a [<- | Ha] c Hin.
        -- right. apply Hi. apply in_or_app. right. exact Hin.
        -- right. exact (Hc a Ha c Hin).
Qed.

(** [walk] yields the tree and, with every node, its children. *)
Lemma walk_closed (tree : node) :
  In (ANode tree) (walk tree)
  /\ forall a, In a (walk tree) -> incl (iter_child_nodes a) (walk tree).
Proof.
  unfold walk.
  destruct (@walk_loop_complete (size_node tree) [ANode tree])
    as [_ [Hi Hc]].
  { simpl. lia. }
  split; [apply Hi; left; reflexivity | exact Hc].
Qed.

(* ================================================================= *)
(** * The node pass *)

Lemma get_issue_008_code (c : classdef) (i : Issue) :
  In i (get_issue_008 c) -> code i = $"S008".
Proof.
  unfold get_issue_008. destruct (negb _); simpl; [| contradiction].
  intros [<- | []]. reflexivity.
Qed.

Lemma get_issue_009_code (f : funcdef) (i : Issue) :
  In i (get_issue_009 f) -> code i = $"S009".
Proof.
  unfold get_issue_009. destruct (negb _); simpl; [| contradiction].
  intros [<- | []]. reflexivity.
Qed.

Lemma get_issue_010_code (f : funcdef) (i : Issue) :
  In i (get_issue_010 f) -> code i = $"S010".
Proof.
  intros H. apply get_issue_010_In in H as [a [_ [_ ->]]]. reflexivity.
Qed.

Lemma get_issue_011_code (f : funcdef) (i : Issue) :
  In i (get_issue_011 f) -> code i = $"S011".
Proof.
  intros H. apply get_issue_011_In in H
    as (t & v & ln & name & ctx & l & _ & _ & _ & ->).
  reflexivity.
Qed.

Lemma get_issue_012_In (f : funcdef) (i : Issue) :
  In i (get_issue_012 f)
  <-> exists d l,
      In d (args_defaults (fn_args f))
      /\ Spec.mutable_literal d = true
      /\ Spec.lineno_of d = Some l
      /\ i = S012_at l.
Proof.
  unfold get_issue_012. rewrite in_flat_map. split.
  - intros [d [Hd Hi]].
    destruct d; simpl in Hi; try contradiction;
      destruct Hi as [<- | []]; eexists _, _;
      (split; [exact Hd |]); repeat split.
  - intros (d & l & Hd & Hm & Hl & ->). exists d. split; [exact Hd |].
    destruct d; simpl in Hm, Hl; try discriminate Hm;
      injection Hl as ->; left; reflexivity.
Qed.

(** What the loop body yields for a node: nothing unless the node is a
    class definition or a plain function definition. *)
Lemma node_issues_In (a : AST) (i : Issue) :
  In i (node_issues a) ->
  (exists c, a = ANode (ClassDef c) /\ In i (get_issue_008 c))
  \/ (exists f, a = ANode (FunctionDef f)
                /\ In i (get_issue_009 f ++ get_issue_010 f
                         ++ get_issue_011 f ++ get_issue_012 f)).
Proof.
  unfold node_issues. intros H. apply in_app_or in H as [H | H].
  - left. destruct a as [n | |]; try contradiction.
    destruct n; try contradiction. eauto.
  - right. destruct a as [n | |]; try contradiction.
    destruct n; try contradiction. eauto.
Qed.

Lemma flat_map_filter_nil {A B : Type} (f : A -> list B) (p : A -> bool)
      (l : list A) :
  (forall a, p a = false -> f a = []) ->
  flat_map f l = flat_map f (filter p l).
Proof.
  intros H. induction l as [| a l IH]; simpl; [reflexivity |].
  destruct (p a) eqn:Hp; simpl.
  - rewrite IH. reflexivity.
  - rewrite (H a Hp). exact IH.
Qed.

(** C9. When the text parses, the node pass returns; every issue of rules
    S009 to S012 it reports was produced by the detectors run on a plain
    [FunctionDef] node of the walk; an [AsyncFunctionDef] node yields
    nothing; and the report is unchanged when the asynchronous definitions
    are left out of the walk. *)
Theorem async_functions_not_inspected :
  forall (ast_parse : str -> Res node) (text : str) (tree : node),
    ast_parse text = ret tree ->
    exists out,
      get_issues_by_node ast_parse text = ret out
      /\ (forall i,
             In i out ->
             In (code i) [$"S009"; $"S010"; $"S011"; $"S012"] ->
             exists f,
               In (ANode (FunctionDef f)) (walk tree)
               /\ In i (get_issue_009 f ++ get_issue_010 f
                        ++ get_issue_011 f ++ get_issue_012 f))
      /\ (forall f, node_issues (ANode (AsyncFunctionDef f)) = [])
      /\ out = flat_map node_issues
                 (filter (fun a => negb (is_async a)) (walk tree)).
Proof.
  intros ast_parse text tree Hp.
  exists (flat_map node_issues (walk tree)).
  split; [unfold get_issues_by_node; rewrite Hp; reflexivity |].
  split; [| split].
  - intros i Hi Hc. apply in_flat_map in Hi as [a [Ha Hi]].
    apply node_issues_In in Hi as [[c [-> Hi]] | [f [-> Hi]]].
    + apply get_issue_008_code in Hi. rewrite Hi in Hc.
      simpl in Hc. repeat (destruct Hc as [Hc | Hc]; [discriminate Hc |]).
      destruct Hc.
    + exists f. split; assumption.
  - reflexivity.
  - apply flat_map_filter_nil. intros a Ha.
    apply negb_false_iff in Ha.
    destruct a as [n | |]; try discriminate Ha.
    destruct n; try discriminate Ha. reflexivity.
Qed.

Lemma async_functions_not_inspected_witness :
  parse_only $"async def Bad(X=[]): ..." (ret async_sample)
    $"async def Bad(X=[]): ..." = ret async_sample
  /\ get_issues_by_node
       (parse_only $"async def Bad(X=[]): ..." (ret async_sample))
       $"async def Bad(X=[]): ..." = ret [].
Proof.
  split; [reflexivity |].
  destruct (@async_functions_not_inspected
              (parse_only $"async def Bad(X=[]): ..." (ret async_sample))
              $"async def Bad(X=[]): ..." async_sample eq_refl)
    as [out [Ho [_ [_ Hf]]]].
  rewrite Ho, Hf. reflexivity.
Defined.

(** The same definition with and without [async]. *)
Example async_sample_issues :
  flat_map node_issues (walk async_sample) = [].
Proof. vm_compute. reflexivity. Qed.

Example plain_sample_issues :
  map code (flat_map node_issues (walk plain_sample))
  = [$"S009"; $"S010"; $"S011"; $"S012"].
Proof. vm_compute. reflexivity. Qed.

(** C10. When the text parses, every S012 issue of the node pass comes
    from a literal list, dictionary or set among the positional defaults
    ([args.defaults]) of a plain function definition; the keyword-only
    defaults ([args.kw_defaults]) have no influence on what
    [get_issue_012] yields. *)
Theorem mutable_default_positional_only :
  forall (ast_parse : str -> Res node) (text : str) (tree : node),
    ast_parse text = ret tree ->
    exists out,
      get_issues_by_node ast_parse text = ret out
      /\ (forall i,
             In i out -> code i = $"S012" ->
             exists f d,
               In (ANode (FunctionDef f)) (walk tree)
               /\ In d (args_defaults (fn_args f))
               /\ Spec.mutable_literal d = true
               /\ Spec.lineno_of d = Some (line_nbr i))
      /\ (forall name posonlyargs args vararg kwonlyargs kwarg defaults
                 body decorator_list returns type_params lineno
                 (kw_defaults kw_defaults' : list (option node)),
             get_issue_012
               (mk_funcdef name
                  (mk_arguments posonlyargs args vararg kwonlyargs
                     kw_defaults kwarg defaults)
                  body decorator_list returns type_params lineno)
             = get_issue_012
                 (mk_funcdef name
                    (mk_arguments posonlyargs args vararg kwonlyargs
                       kw_defaults' kwarg defaults)
                    body decorator_list returns type_params lineno)).
Proof.
  intros ast_parse text tree Hp.
  exists (flat_map node_issues (walk tree)).
  split; [unfold get_issues_by_node; rewrite Hp; reflexivity |].
  split; [| reflexivity].
  intros i Hi Hc. apply in_flat_map in Hi as [a [Ha Hi]].
  apply node_issues_In in Hi as [[c [-> Hi]] | [f [-> Hi]]].
  - apply get_issue_008_code in Hi. rewrite Hi in Hc. discriminate Hc.
  - exists f.
    apply in_app_or in Hi as [Hi | Hi];
      [apply get_issue_009_code in Hi; rewrite Hi in Hc; discriminate Hc |].
    apply in_app_or in Hi as [Hi | Hi];
      [apply get_issue_010_code in Hi; rewrite Hi in Hc; discriminate Hc |].
    apply in_app_or in Hi as [Hi | Hi];
      [apply get_issue_011_code in Hi; rewrite Hi in Hc; discriminate Hc |].
    apply get_issue_012_In in Hi as (d & l & Hd & Hm & Hl & ->).
    exists d. auto.
Qed.

Lemma mutable_default_positional_only_witness :
  parse_only $"def f(x, *, a=[], b={}): pass" (ret kwonly_sample)
    $"def f(x, *, a=[], b={}): pass" = ret kwonly_sample
  /\ exists out,
      get_issues_by_node
        (parse_only $"def f(x, *, a=[], b={}): pass" (ret kwonly_sample))
        $"def f(x, *, a=[], b={}): pass" = ret out
      /\ forall i, In i out -> code i <> $"S012".
Proof.
  split; [reflexivity |].
  destruct (@mutable_default_positional_only
              (parse_only $"def f(x, *, a=[], b={}): pass" (ret kwonly_sample))
              $"def f(x, *, a=[], b={}): pass" kwonly_sample eq_refl)
    as [out [Ho [Hi _]]].
  exists out. split; [exact Ho |].
  intros i Hin Hc. destruct (Hi i Hin Hc) as (f & d & Hf & Hd & _).
  vm_compute in Hf.
  repeat (destruct Hf as [Hf | Hf];
          [try discriminate Hf;
           injection Hf as <-; destruct Hd |]).
  destruct Hf.
Defined.

Example kwonly_sample_issues :
  flat_map node_issues (walk kwonly_sample) = [].
Proof. vm_compute. reflexivity. Qed.

(* ================================================================= *)
(** * The report *)

Lemma leb_total (a b : str) : leb a b = false -> leb b a = true.
Proof.
  revert b. induction a as [| x a IH]; intros [| y b]; simpl;
    try discriminate; try reflexivity.
  intros H. apply orb_false_iff in H as [H1 H2].
  apply Nat.ltb_ge in H1.
  destruct (PyStr.code y <? PyStr.code x) eqn:Hlt; [reflexivity |].
  apply Nat.ltb_ge in Hlt. simpl.
  assert (E : PyStr.code x = PyStr.code y) by lia.
  rewrite E, Nat.eqb_refl in *. simpl in *. apply IH. exact H2.
Qed.

Lemma leb_refl (a : str) : leb a a = true.
Proof.
  induction a as [| x a IH]; simpl; [reflexivity |].
  rewrite Nat.eqb_refl, IH. apply orb_true_r.
Qed.

Lemma key_leb_refl (a : nat * str) : key_leb a a = true.
Proof.
  unfold key_leb. rewrite Nat.eqb_refl, leb_refl. apply orb_true_r.
Qed.

Lemma key_leb_total (a b : nat * str) :
  key_leb a b = false -> key_leb b a = true.
Proof.
  unfold key_leb. destruct a as [n c], b as [m d]. simpl. intros H.
  apply orb_false_iff in H as [H1 H2]. apply Nat.ltb_ge in H1.
  destruct (m <? n) eqn:Hlt; [reflexivity |].
  apply Nat.ltb_ge in Hlt. simpl.
  assert (E : n = m) by lia. subst m.
  rewrite Nat.eqb_refl in *. simpl in *. apply leb_total. exact H2.
Qed.

Section Sorted.

Variable A : Type.
Variable key : A -> nat * str.

Lemma insert_by_hd (x y : A) (l : list A) :
  key_le key y x -> HdRel (key_le key) y l -> HdRel (key_le key) y (insert_by key x l).
Proof.
  intros Hyx Hl. destruct l as [| z l]; simpl.
  - constructor. exact Hyx.
  - destruct (key_leb (key x) (key z)).
    + constructor. exact Hyx.
    + constructor. inversion Hl. assumption.
Qed.

Lemma insert_by_sorted (x : A) (l : list A) :
  Sorted (key_le key) l -> Sorted (key_le key) (insert_by key x l).
Proof.
  induction 1 as [| y l Hs IH Hh]; simpl.
  - repeat constructor.
  - destruct (key_leb (key x) (key y)) eqn:Hxy.
    + constructor.
      * constructor; assumption.
      * constructor. exact Hxy.
    + constructor.
      * exact IH.
      * apply insert_by_hd; [| exact Hh].
        apply key_leb_total. exact Hxy.
Qed.

Lemma sorted_is_sorted (l : list A) : Sorted (key_le key) (sorted key l).
Proof.
  induction l as [| x l IH]; simpl.
  - constructor.
  - apply insert_by_sorted. exact IH.
Qed.

Lemma insert_by_perm (x : A) (l : list A) :
  Permutation (x :: l) (insert_by key x l).
Proof.
  induction l as [| y l IH]; simpl.
  - apply Permutation_refl.
  - destruct (key_leb (key x) (key y)).
    + apply Permutation_refl.
    + eapply Permutation_trans; [apply perm_swap |].
      apply perm_skip. exact IH.
Qed.

(** [sorted] reorders its argument. *)
Lemma sorted_perm (l : list A) : Permutation l (sorted key l).
Proof.
  induction l as [| x l IH]; simpl.
  - apply Permutation_refl.
  - eapply Permutation_trans; [| apply insert_by_perm].
    apply perm_skip. exact IH.
Qed.

Lemma insert_by_stable (k : nat * str) (x : A) (l : list A) :
  filter (same_key key k) (insert_by key x l)
  = filter (same_key key k) (x :: l).
Proof.
  induction l as [| y l IH]; [reflexivity |].
  cbn [insert_by]. destruct (key_leb (key x) (key y)) eqn:Hxy;
    [reflexivity |].
  cbn [filter] in *. rewrite IH.
  destruct (same_key key k x) eqn:Hx; [| reflexivity].
  destruct (same_key key k y) eqn:Hy; [| reflexivity].
  exfalso. unfold same_key in Hx, Hy.
  apply andb_true_iff in Hx as [Hx1 Hx2], Hy as [Hy1 Hy2].
  apply Nat.eqb_eq in Hx1, Hy1. apply eqb_true in Hx2, Hy2.
  assert (E : key x = key y).
  { destruct (key x), (key y). simpl in *. congruence. }
  rewrite E, key_leb_refl in Hxy. discriminate Hxy.
Qed.

(** [sorted] is stable: issues with the same key keep their order. *)
Lemma sorted_stable (k : nat * str) (l : list A) :
  filter (same_key key k) (sorted key l) = filter (same_key key k) l.
Proof.
  induction l as [| x l IH]; [reflexivity |].
  cbn [sorted]. rewrite insert_by_stable. cbn [filter]. rewrite IH.
  reflexivity.
Qed.

Lemma Sorted_adjacent (l : list A) :
  Sorted (key_le key) l ->
  forall l1 a b l2, l = l1 ++ a :: b :: l2 -> key_le key a b.
Proof.
  induction 1 as [| x l Hs IH Hh]; intros l1 a b l2 E.
  - destruct l1; discriminate E.
  - destruct l1 as [| y l1]; simpl in E; injection E as -> ->.
    + inversion Hh. assumption.
    + eapply IH. reflexivity.
Qed.

End Sorted.

Lemma key_le_issue_le (a b : Issue) :
  key_le sort_key a b -> Spec.issue_le a b.
Proof.
  unfold key_le, key_leb, sort_key, Spec.issue_le. simpl. intros H.
  apply orb_true_iff in H as [H | H].
  - left. apply Nat.ltb_lt. exact H.
  - right. apply andb_true_iff in H as [H1 H2].
    apply Nat.eqb_eq in H1. auto.
Qed.

(** C4. Whenever [check_file] has a report for a text, it is made of the
    issues of both passes, reordered so that every two adjacent issues
    [a], [b] satisfy [a.line_nbr < b.line_nbr], or
    [a.line_nbr = b.line_nbr] and [a.code <= b.code]; the lines printed
    are these issues rendered in that order. *)
Theorem report_sorted :
  forall (ast_parse : str -> Res node) (filepath text : str)
         (issues : list Issue),
    sorted_issues ast_parse text = ret issues ->
    (forall l1 a b l2, issues = l1 ++ a :: b :: l2 -> Spec.issue_le a b)
    /\ check_file ast_parse filepath text
       = ret (map (render filepath) issues)
    /\ exists by_line by_node,
        get_issues_by_line text = ret by_line
        /\ get_issues_by_node ast_parse text = ret by_node
        /\ Permutation (by_line ++ by_node) issues.
Proof.
  intros ast_parse filepath text issues Hs.
  pose proof Hs as Hs'. unfold sorted_issues in Hs'.
  apply bind_ret_inv in Hs' as [by_line [Hl Hs']].
  apply bind_ret_inv in Hs' as [by_node [Hn Hs']].
  injection Hs' as <-.
  split; [| split].
  - intros l1 a b l2 E. apply key_le_issue_le.
    eapply Sorted_adjacent; [apply sorted_is_sorted | exact E].
  - unfold check_file. rewrite Hs. reflexivity.
  - exists by_line, by_node. repeat split; try assumption.
    apply sorted_perm.
Qed.

(** When the text parses, there is a report. *)
Lemma report_exists (ast_parse : str -> Res node) (text : str)
      (tree : node) :
  ast_parse text = ret tree ->
  exists issues, sorted_issues ast_parse text = ret issues.
Proof.
  intros Hp. destruct (get_issues_by_line_spec text) as [by_line [Hl _]].
  eexists. unfold sorted_issues, get_issues_by_node.
  rewrite Hl, Hp. reflexivity.
Qed.

Lemma report_sorted_witness :
  sorted_issues (parse_only scenario_text (ret scenario_tree)) scenario_text
  = ret [mkIssue $"S008" $"Class name 'myClass' should use CamelCase" 1;
         mkIssue $"S007" $"Too many spaces after 'def'" 2;
         mkIssue $"S009" $"Function name 'MyMethod' should use snake_case" 2;
         mkIssue $"S010" $"Argument name 'X' should be snake case" 2;
         S003 3]
  /\ Spec.issue_le
       (mkIssue $"S007" $"Too many spaces after 'def'" 2)
       (mkIssue $"S009" $"Function name 'MyMethod' should use snake_case" 2).
Proof.
  split; [vm_compute; reflexivity |].
  refine (proj1 (@report_sorted
                   (parse_only scenario_text (ret scenario_tree))
                   $"a.py" scenario_text _ _) [_] _ _ [_; _] eq_refl).
  vm_compute. reflexivity.
Defined.

(** The report of the scenario. *)
Example scenario_report :
  check_file (parse_only scenario_text (ret scenario_tree)) $"a.py"
    scenario_text
  = ret [ $"a.py: Line 1: S008 Class name 'myClass' should use CamelCase";
          $"a.py: Line 2: S007 Too many spaces after 'def'";
          $"a.py: Line 2: S009 Function name 'MyMethod' should use snake_case";
          $"a.py: Line 2: S010 Argument name 'X' should be snake case";
          $"a.py: Line 3: S003 Unnecessary semicolon" ].
Proof. vm_compute. reflexivity. Qed.

(** C3. When [ast.parse] raises on a text, the node pass raises the same
    exception: it does not return a list, empty or not.  The exception
    also leaves [check_file], which prints nothing. *)
Theorem parse_error_propagates :
  forall (ast_parse : str -> Res node) (filepath text : str) (e : exn),
    ast_parse text = raise e ->
    get_issues_by_node ast_parse text = raise e
    /\ (forall out, get_issues_by_node ast_parse text <> ret out)
    /\ sorted_issues ast_parse text = raise e
    /\ check_file ast_parse filepath text = raise e.
Proof.
  intros ast_parse filepath text e Hp.
  assert (Hn : get_issues_by_node ast_parse text = raise e).
  { unfold get_issues_by_node. rewrite Hp. reflexivity. }
  assert (Hs : sorted_issues ast_parse text = raise e).
  { unfold sorted_issues.
    destruct (get_issues_by_line_spec text) as [by_line [Hl _]].
    rewrite Hl, Hn. reflexivity. }
  repeat split; try assumption.
  - intros out H. rewrite Hn in H. discriminate H.
  - unfold check_file. rewrite Hs. reflexivity.
Qed.

Lemma parse_error_propagates_witness :
  parse_only $"def f(:" (raise SyntaxError) $"def f(:" = raise SyntaxError
  /\ get_issues_by_node (parse_only $"def f(:" (raise SyntaxError))
       $"def f(:" = raise SyntaxError.
Proof.
  split; [reflexivity |].
  exact (proj1 (@parse_error_propagates
                  (parse_only $"def f(:" (raise SyntaxError))
                  $"a.py" $"def f(:" SyntaxError eq_refl)).
Defined.

(* ================================================================= *)
(** * Rules S005 and S004 on comment lines *)

Module CommentFacts.
Import Re.

(** [search] reports the attempt at the first offset when it succeeds. *)
Lemma search_from_first (r : regex) (s : str) (p : nat) (rst : str)
      (st : state) :
  match_at r false p rst = Some st ->
  search_from r s p rst = Some (to_match r s p st).
Proof. intros H. destruct rst; simpl; rewrite H; reflexivity. Qed.

(** [search] fails when the attempts at all offsets do. *)
Lemma search_from_none (r : regex) (s : str) :
  forall (rst : str) (p : nat),
    (forall pre rst', rst = pre ++ rst' ->
                      match_at r false (p + List.length pre) rst' = None) ->
    search_from r s p rst = None.
Proof.
  induction rst as [| c rst IH]; intros p H; simpl.
  - specialize (H [] [] eq_refl). simpl in H. rewrite Nat.add_0_r in H.
    rewrite H. reflexivity.
  - pose proof (H [] (c :: rst) eq_refl) as H0. simpl in H0.
    rewrite Nat.add_0_r in H0. rewrite H0.
    apply IH. intros pre rst' E.
    specialize (H (c :: pre) rst'). simpl in H.
    replace (S p + List.length pre) with (p + S (List.length pre)) by lia.
    apply H. rewrite E. reflexivity.
Qed.

(** A lazy repetition stops at the first offset where the continuation
    accepts. *)
Lemma rep_lazy_first (cs : cset) (k : cont) (cp : list (nat * span))
      (rst' : str) :
  forall (pre : str) (n p : nat) (s : state),
    forallb (cset_mem cs) pre = true ->
    (forall a b, pre = a ++ b -> b <> [] ->
                 k (mkState (p + List.length a) (b ++ rst') cp) = None) ->
    k (mkState (p + List.length pre) rst' cp) = Some s ->
    rep cs false 0 k cp n (pre ++ rst') p = Some s.
Proof.
  induction pre as [| c pre IH]; intros n p s Hall Hno Hk.
  - simpl in Hk. rewrite Nat.add_0_r in Hk. simpl app.
    destruct rst' as [| c r]; simpl; rewrite Hk; [reflexivity |].
    destruct (cset_mem cs c); reflexivity.
  - simpl in Hall. apply andb_true_iff in Hall as [Hc Hall].
    cbn [app rep Nat.leb]. rewrite Hc.
    pose proof (Hno [] (c :: pre) eq_refl) as H0. simpl in H0.
    rewrite Nat.add_0_r in H0. rewrite H0 by discriminate.
    cbn [orelse]. apply IH.
    + exact Hall.
    + intros a b E Hb. specialize (Hno (c :: a) b). simpl in Hno.
      replace (S p + List.length a) with (p + S (List.length a)) by lia.
      apply Hno; [rewrite E; reflexivity | exact Hb].
    + replace (S p + List.length pre) with (p + List.length (c :: pre))
        by (simpl; lia).
      exact Hk.
Qed.

(** A greedy repetition takes a whole run of the set when the
    continuation accepts after it. *)
Lemma rep_greedy_run (cs : cset) (min : nat) (k : cont)
      (cp : list (nat * span)) (rst' : str) :
  match rst' with
  | c :: _ => cset_mem cs c = false
  | [] => True
  end ->
  forall (ws : str) (n p : nat) (s : state),
    forallb (cset_mem cs) ws = true ->
    min <= n + List.length ws ->
    k (mkState (p + List.length ws) rst' cp) = Some s ->
    rep cs true min k cp n (ws ++ rst') p = Some s.
Proof.
  intros Hhd. induction ws as [| c ws IH]; intros n p s Hall Hmin Hk.
  - simpl in *. rewrite Nat.add_0_r in *.
    apply Nat.leb_le in Hmin.
    destruct rst' as [| c r]; simpl; rewrite Hmin.
    + exact Hk.
    + rewrite Hhd. exact Hk.
  - simpl in Hall. apply andb_true_iff in Hall as [Hc Hall].
    cbn [app rep]. rewrite Hc.
    rewrite (IH (S n) (S p) s Hall); [reflexivity | simpl in Hmin; lia |].
    replace (S p + List.length ws) with (p + List.length (c :: ws))
      by (simpl; lia).
    exact Hk.
Qed.

(** [#.*$] at a [#] runs to the end of a line. *)
Lemma comment_at_hash (k : cont) (p : nat) (post : str)
      (cp : list (nat * span)) (s : state) :
  ~ In newline post ->
  k (mkState (S p + List.length post) [] cp) = Some s ->
  run Pat.comment k (mkState p ("#"%char :: post) cp) = Some s.
Proof.
  intros Hnl Hk. unfold Pat.comment, Lit. cbn [run rest pos caps cset_mem].
  rewrite eqb_char_refl.
  apply ReFacts.rep_greedy_all.
  - apply SubFacts.no_newline_any. exact Hnl.
  - lia.
  - exact Hk.
Qed.

Lemma comment_not_hash (k : cont) (p : nat) (c : ascii) (r : str)
      (cp : list (nat * span)) :
  c <> "#"%char ->
  run Pat.comment k (mkState p (c :: r) cp) = None.
Proof.
  intros Hc. unfold Pat.comment, Lit. cbn [run rest pos caps cset_mem].
  apply not_eq_sym, eqb_char_false in Hc. rewrite Hc. reflexivity.
Qed.

(** On a line with a [#], the pattern of S005 matches from offset 0 to the
    end of the line. *)
Lemma upto_comment_match (pre post : str) :
  ~ In "#"%char pre ->
  ~ In newline (pre ++ "#"%char :: post) ->
  exists st,
    match_at Pat.upto_comment false 0 (pre ++ "#"%char :: post) = Some st
    /\ pos st = List.length (pre ++ "#"%char :: post).
Proof.
  intros Hpre Hnl.
  eexists. split.
  - unfold match_at, Pat.upto_comment. cbn [run rest pos caps].
    apply rep_lazy_first.
    + apply SubFacts.no_newline_any. intros H. apply Hnl.
      apply in_or_app. left. exact H.
    + intros a b E Hb. destruct b as [| c b]; [congruence |].
      apply comment_not_hash. intros ->. apply Hpre. rewrite E.
      apply in_or_app. right. left. reflexivity.
    + apply comment_at_hash.
      * intros H. apply Hnl. apply in_or_app. right. right. exact H.
      * reflexivity.
  - cbn [pos]. rewrite length_app. simpl. lia.
Qed.

(** Without a [#] it matches nowhere. *)
Lemma upto_comment_none (p : nat) (rst : str) :
  ~ In "#"%char rst -> match_at Pat.upto_comment false p rst = None.
Proof.
  intros Hno. destruct (match_at Pat.upto_comment false p rst) eqn:H;
    [| reflexivity].
  exfalso. unfold match_at, Pat.upto_comment in H.
  cbn [run rest pos caps] in H.
  apply ReFacts.rep_sound in H as [tk [r' [E [_ [_ K]]]]].
  destruct r' as [| c r'].
  - unfold Pat.comment, Lit in K. cbn [run rest pos caps] in K.
    discriminate K.
  - destruct (ascii_dec c "#") as [-> | Hc].
    + apply Hno. rewrite E. apply in_or_app. right. left. reflexivity.
    + rewrite comment_not_hash in K by exact Hc. discriminate K.
Qed.

Lemma slice_all (s : str) : slice s 0 (List.length s) = s.
Proof. unfold slice. rewrite Nat.sub_0_r. simpl. apply firstn_all. Qed.

End CommentFacts.

(** What [get_issue_005] computes on a line: an issue exactly when the
    line has a [#] and the whole line, text before the [#] included,
    contains "todo" in any letter case. *)
Lemma get_issue_005_whole_line (line : str) (n : nat) :
  ~ In Re.newline line ->
  get_issue_005 line n
  = ret (if contains_char line "#" && contains (lower line) $"todo"
         then [S005 n] else []).
Proof.
  intros Hnl. unfold get_issue_005, Re.search.
  destruct (contains_char line "#") eqn:Hh.
  - apply contains_char_In, SubFacts.in_split_first in Hh
      as [pre [post [E Hpre]]].
    rewrite E in Hnl.
    destruct (@CommentFacts.upto_comment_match pre post Hpre Hnl)
      as [st [Hm Hp]].
    rewrite <- E in *.
    rewrite (@CommentFacts.search_from_first _ line _ _ _ Hm).
    cbn [Re.truthy negb subscript]. rewrite ReFacts.getitem_0.
    unfold Re.to_match. cbn [Re.m_string Re.m_start Re.m_end].
    rewrite Hp, CommentFacts.slice_all. simpl.
    destruct (contains _ _); reflexivity.
  - apply contains_char_false in Hh.
    rewrite CommentFacts.search_from_none; [reflexivity |].
    intros pre rst' E. apply CommentFacts.upto_comment_none.
    intros H. apply Hh. rewrite E. apply in_or_app. right. exact H.
Qed.

(** C1. The line [todo = 1  # set] has "todo" only before its [#]: the
    text from the first [#] on does not contain it.  The line scanner
    reports S005 for it all the same, because [get_issue_005] searches
    the whole match, which starts at the beginning of the line. *)
Theorem todo_before_comment_reported :
  Spec.comment_part $"todo = 1  # set" = $"# set"
  /\ Spec.todo_in_comment $"todo = 1  # set" = false
  /\ get_issues_by_line $"todo = 1  # set" = ret [S005 1].
Proof. vm_compute. repeat split; reflexivity. Qed.

(** On a line made of whitespace [ws], a [#] and anything, the pattern of
    S004 matches at offset 0 with group 1 equal to [ws]. *)
Lemma spaces_hash_match (ws rest : str) :
  forallb isspace ws = true ->
  Re.match_at Pat.spaces_hash false 0 (ws ++ "#"%char :: rest)
  = Some (Re.mkState (S (List.length ws)) rest [(1, (0, List.length ws))]).
Proof.
  intros Hws. unfold Re.match_at, Pat.spaces_hash, Re.Lit.
  cbn [Re.run Re.rest Re.pos Re.caps].
  apply CommentFacts.rep_greedy_run.
  - reflexivity.
  - exact Hws.
  - lia.
  - cbn [Re.run Re.rest Re.pos Re.caps Re.cset_mem Nat.add].
    rewrite eqb_char_refl. reflexivity.
Qed.

Lemma startswith_char (a c : ascii) (s : str) :
  startswith (c :: s) [a] = eqb_char a c.
Proof. simpl. destruct s; apply andb_true_r. Qed.

(** What [get_issue_004] computes on a full-line comment: an issue exactly
    when one whitespace character stands before the [#]. *)
Lemma get_issue_004_comment_line (ws rest : str) (n : nat) :
  forallb isspace ws = true ->
  get_issue_004 (ws ++ "#"%char :: rest) n
  = ret (if List.length ws =? 1 then [S004 n] else []).
Proof.
  intros Hws. unfold get_issue_004.
  destruct ws as [| c ws].
  - simpl app. change ($"#") with ["#"%char].
    rewrite startswith_char, eqb_char_refl. reflexivity.
  - assert (Hc : eqb_char "#" c = false).
    { apply eqb_char_false. intros <-. simpl in Hws. discriminate Hws. }
    change ($"#") with ["#"%char]. rewrite <- app_comm_cons.
    rewrite startswith_char, Hc. rewrite app_comm_cons.
    unfold Re.search.
    rewrite (@CommentFacts.search_from_first _ _ _ _ _
               (spaces_hash_match (c :: ws) rest Hws)).
    cbn [Re.truthy negb subscript].
    unfold Re.getitem, Re.to_match.
    cbn [Re.m_ngroups Re.m_groups Re.m_string Re.caps Re.ngroups
         Pat.spaces_hash Re.Lit Nat.max Nat.leb Re.lookup Nat.eqb
         option_map fst snd].
    unfold Re.slice. rewrite Nat.sub_0_r. cbn [skipn].
    rewrite firstn_app, Nat.sub_diag, firstn_all. cbn [firstn].
    rewrite app_nil_r. cbn [bind ret len List.length].
    destruct ws; reflexivity.
Qed.

(** C2. The line made of one space and [# comment] is a full-line
    comment: its first character that is not whitespace is [#].  The line
    scanner reports S004 for it, because [get_issue_004] exempts only the
    lines whose first character is [#]. *)
Theorem indented_comment_reported :
  Spec.full_line_comment $" # comment" = true
  /\ get_issues_by_line $" # comment" = ret [S002 1; S004 1].
Proof. vm_compute. split; reflexivity. Qed.

(* ================================================================= *)
(** * The other line rules *)

(** ** Each rule among the issues of a line *)

Lemma line_issues_rules (line : str) (n c : nat) (here : list Issue) :
  line_issues line n c = ret here ->
  get_issue_001 line n = ret (filter (has_code $"S001") here)
  /\ get_issue_002 line n = ret (filter (has_code $"S002") here)
  /\ get_issue_004 line n = ret (filter (has_code $"S004") here)
  /\ get_issue_005 line n = ret (filter (has_code $"S005") here)
  /\ get_issue_007 line n = ret (filter (has_code $"S007") here).
Proof.
  destruct (line_issues_parts line n c)
    as (l1 & l2 & l3 & l4 & l5 & l6 & l7
        & H1 & H2 & H3 & H4 & H5 & H6 & H7 & H).
  intros Hh. rewrite H in Hh. injection Hh as <-.
  pose proof (get_issue_001_emits line n) as E1.
  pose proof (get_issue_002_emits line n) as E2.
  pose proof (get_issue_003_emits line n) as E3.
  pose proof (get_issue_004_emits line n) as E4.
  pose proof (get_issue_005_emits line n) as E5.
  pose proof (get_issue_006_emits c n) as E6.
  pose proof (get_issue_007_emits line n) as E7.
  repeat split; rewrite !filter_app.
  - rewrite (@filter_code_same _ _ _ _ E1 H1),
      (@filter_code_other $"S001" _ _ _ _ E2 H2 eq_refl),
      (@filter_code_other $"S001" _ _ _ _ E3 H3 eq_refl),
      (@filter_code_other $"S001" _ _ _ _ E4 H4 eq_refl),
      (@filter_code_other $"S001" _ _ _ _ E5 H5 eq_refl),
      (@filter_code_other $"S001" _ _ _ _ E6 H6 eq_refl),
      (@filter_code_other $"S001" _ _ _ _ E7 H7 eq_refl).
    simpl. rewrite app_nil_r. exact H1.
  - rewrite (@filter_code_other $"S002" _ _ _ _ E1 H1 eq_refl),
      (@filter_code_same _ _ _ _ E2 H2),
      (@filter_code_other $"S002" _ _ _ _ E3 H3 eq_refl),
      (@filter_code_other $"S002" _ _ _ _ E4 H4 eq_refl),
      (@filter_code_other $"S002" _ _ _ _ E5 H5 eq_refl),
      (@filter_code_other $"S002" _ _ _ _ E6 H6 eq_refl),
      (@filter_code_other $"S002" _ _ _ _ E7 H7 eq_refl).
    simpl. rewrite app_nil_r. exact H2.
  - rewrite (@filter_code_other $"S004" _ _ _ _ E1 H1 eq_refl),
      (@filter_code_other $"S004" _ _ _ _ E2 H2 eq_refl),
      (@filter_code_other $"S004" _ _ _ _ E3 H3 eq_refl),
      (@filter_code_same _ _ _ _ E4 H4),
      (@filter_code_other $"S004" _ _ _ _ E5 H5 eq_refl),
      (@filter_code_other $"S004" _ _ _ _ E6 H6 eq_refl),
      (@filter_code_other $"S004" _ _ _ _ E7 H7 eq_refl).
    simpl. rewrite app_nil_r. exact H4.
  - rewrite (@filter_code_other $"S005" _ _ _ _ E1 H1 eq_refl),
      (@filter_code_other $"S005" _ _ _ _ E2 H2 eq_refl),
      (@filter_code_other $"S005" _ _ _ _ E3 H3 eq_refl),
      (@filter_code_other $"S005" _ _ _ _ E4 H4 eq_refl),
      (@filter_code_same _ _ _ _ E5 H5),
      (@filter_code_other $"S005" _ _ _ _ E6 H6 eq_refl),
      (@filter_code_other $"S005" _ _ _ _ E7 H7 eq_refl).
    simpl. rewrite app_nil_r. exact H5.
  - rewrite (@filter_code_other $"S007" _ _ _ _ E1 H1 eq_refl),
      (@filter_code_other $"S007" _ _ _ _ E2 H2 eq_refl),
      (@filter_code_other $"S007" _ _ _ _ E3 H3 eq_refl),
      (@filter_code_other $"S007" _ _ _ _ E4 H4 eq_refl),
      (@filter_code_other $"S007" _ _ _ _ E5 H5 eq_refl),
      (@filter_code_other $"S007" _ _ _ _ E6 H6 eq_refl),
      (@filter_code_same _ _ _ _ E7 H7).
    simpl. exact H7.
Qed.

(** The issues of one rule at the number of a non-blank line are those of
    the rule's detector on that line. *)
Lemma rule_at_line (text : str) (k : nat) (line : str) :
  nth_error (split Re.newline text) k = Some line ->
  Spec.blank line = false ->
  exists out,
    get_issues_by_line text = ret out
    /\ get_issue_001 line (S k)
       = ret (filter (has_code $"S001") (filter (at_line (S k)) out))
    /\ get_issue_002 line (S k)
       = ret (filter (has_code $"S002") (filter (at_line (S k)) out))
    /\ get_issue_004 line (S k)
       = ret (filter (has_code $"S004") (filter (at_line (S k)) out))
    /\ get_issue_005 line (S k)
       = ret (filter (has_code $"S005") (filter (at_line (S k)) out))
    /\ get_issue_007 line (S k)
       = ret (filter (has_code $"S007") (filter (at_line (S k)) out)).
Proof.
  intros Hn Hb.
  destruct (get_issues_by_line_spec text) as [out [Ho Hk]].
  exists out. split; [exact Ho |].
  destruct (Hk k line Hn Hb) as [here [Hh ->]].
  exact (line_issues_rules _ _ _ Hh).
Qed.

Lemma ret_inj {A : Type} (a b : A) : ret a = ret b -> a = b.
Proof. intros H. injection H as ->. reflexivity. Qed.

(** ** Rule S002 *)

Module IndentFacts.
Import Re.

Lemma leading_split (line : str) :
  exists ws r,
    line = ws ++ r
    /\ forallb isspace ws = true
    /\ match r with c :: _ => isspace c = false | [] => True end
    /\ Plain.leading_spaces line = List.length ws.
Proof.
  induction line as [| c line (ws & r & E & Hws & Hr & Hl)].
  - exists [], []. simpl. auto.
  - simpl. destruct (isspace c) eqn:Hc.
    + exists (c :: ws), r. simpl. rewrite Hc, Hws, Hl. subst line. auto.
    + exists [], (c :: line). simpl. auto.
Qed.

(** [^\s+] matches at offset 0 exactly the leading whitespace, when there
    is some. *)
Lemma indent_match (ws r : str) :
  forallb isspace ws = true ->
  ws <> [] ->
  match r with c :: _ => isspace c = false | [] => True end ->
  match_at Pat.indent false 0 (ws ++ r)
  = Some (mkState (List.length ws) r []).
Proof.
  intros Hws Hne Hr. unfold match_at, Pat.indent.
  cbn [run rest pos caps Nat.eqb].
  apply CommentFacts.rep_greedy_run.
  - exact Hr.
  - exact Hws.
  - destruct ws; [congruence | simpl; lia].
  - reflexivity.
Qed.

(** It matches nowhere else. *)
Lemma indent_later (s : str) :
  forall (rst : str) (p : nat), search_from Pat.indent s (S p) rst = None.
Proof.
  induction rst as [| c rst IH]; intros p; simpl.
  - reflexivity.
  - apply IH.
Qed.

Lemma indent_none (r : str) :
  match r with c :: _ => isspace c = false | [] => True end ->
  search Pat.indent r = None.
Proof.
  intros Hr. unfold search. destruct r as [| c r]; [reflexivity |].
  simpl. unfold match_at, Pat.indent.
  cbn [run rest pos caps Nat.eqb rep cset_mem].
  rewrite Hr. cbn [Nat.leb]. apply indent_later.
Qed.

End IndentFacts.

(** What [get_issue_002] computes: an issue exactly when the number of
    whitespace characters at the start of the line is not a multiple of
    four. *)
Lemma get_issue_002_spec (line : str) (n : nat) :
  get_issue_002 line n
  = ret (if Plain.leading_spaces line mod 4 =? 0 then [] else [S002 n]).
Proof.
  destruct (IndentFacts.leading_split line) as (ws & r & E & Hws & Hr & Hl).
  rewrite Hl. unfold get_issue_002. destruct ws as [| c ws].
  - simpl in E. subst r. rewrite (@IndentFacts.indent_none _ Hr).
    reflexivity.
  - unfold Re.search. rewrite E.
    rewrite (@CommentFacts.search_from_first _ _ _ _ _
               (@IndentFacts.indent_match (c :: ws) r Hws
                  ltac:(discriminate) Hr)).
    cbn [Re.truthy negb subscript]. rewrite ReFacts.getitem_0.
    unfold Re.to_match. cbn [Re.m_string Re.m_start Re.m_end Re.pos].
    unfold Re.slice. rewrite Nat.sub_0_r. cbn [skipn].
    rewrite firstn_app, Nat.sub_diag, firstn_all. cbn [firstn].
    rewrite app_nil_r. cbn [bind ret len].
    destruct (_ =? 0); reflexivity.
Qed.

(** X2. At a non-blank line the scanner reports S002 once when the number of
    leading whitespace characters (tabs count for one) is not a multiple
    of four, and not otherwise. *)
Theorem indentation_at_line :
  forall (text : str) (k : nat) (line : str),
    nth_error (split Re.newline text) k = Some line ->
    Spec.blank line = false ->
    exists out,
      get_issues_by_line text = ret out
      /\ filter (has_code $"S002") (filter (at_line (S k)) out)
         = if Plain.leading_spaces line mod 4 =? 0 then []
           else [S002 (S k)].
Proof.
  intros text k line Hn Hb.
  destruct (rule_at_line text k Hn Hb) as [out [Ho [_ [H2 _]]]].
  exists out. split; [exact Ho |].
  rewrite get_issue_002_spec in H2. apply ret_inj in H2. symmetry.
  exact H2.
Qed.

Lemma indentation_at_line_witness :
  nth_error (split Re.newline $"   x = 1") 0 = Some $"   x = 1"
  /\ Spec.blank $"   x = 1" = false
  /\ exists out,
      get_issues_by_line $"   x = 1" = ret out
      /\ filter (has_code $"S002") (filter (at_line 1) out) = [S002 1].
Proof.
  split; [reflexivity |]. split; [reflexivity |].
  exact (@indentation_at_line $"   x = 1" 0 _ eq_refl eq_refl).
Defined.

(** ** Rule S004 *)

Module GapFacts.
Import Re.

Lemma space_not_hash (c : ascii) : isspace c = true -> eqb_char c "#" = false.
Proof.
  intros H. apply eqb_char_false. intros ->. discriminate H.
Qed.

Lemma hash_split (s : str) :
  Plain.hash_after_spaces s = true ->
  exists ws post,
    s = ws ++ "#"%char :: post
    /\ forallb isspace ws = true
    /\ Plain.leading_spaces s = List.length ws.
Proof.
  induction s as [| c s IH]; simpl; intros H; [discriminate H |].
  destruct (eqb_char c "#") eqn:Hc.
  - apply eqb_char_true in Hc. subst c. exists [], s. auto.
  - destruct (isspace c) eqn:Hs; [| discriminate H].
    destruct (IH H) as (ws & post & -> & Hws & Hl).
    exists (c :: ws), post. simpl. rewrite Hs, Hws, Hl. auto.
Qed.

Lemma hash_unsplit (ws post : str) :
  forallb isspace ws = true ->
  Plain.hash_after_spaces (ws ++ "#"%char :: post) = true.
Proof.
  induction ws as [| c ws IH]; simpl; intros H.
  - reflexivity.
  - apply andb_true_iff in H as [Hc Hws].
    rewrite (@space_not_hash _ Hc), Hc. apply IH. exact Hws.
Qed.

(** The pattern of S004 at any offset: it matches exactly when the text
    from there is whitespace followed by a [#], and group 1 is that
    whitespace. *)
Lemma spaces_hash_at (p : nat) (ws post : str) :
  forallb isspace ws = true ->
  match_at Pat.spaces_hash false p (ws ++ "#"%char :: post)
  = Some (mkState (S (p + List.length ws)) post
            [(1, (p, p + List.length ws))]).
Proof.
  intros Hws. unfold match_at, Pat.spaces_hash, Lit.
  cbn [run rest pos caps].
  apply CommentFacts.rep_greedy_run.
  - reflexivity.
  - exact Hws.
  - lia.
  - cbn [run rest pos caps cset_mem]. rewrite eqb_char_refl. reflexivity.
Qed.

Lemma leading_spaces_le (s : str) :
  Plain.leading_spaces s <= List.length s.
Proof.
  induction s as [| c s IH]; simpl; [lia |].
  destruct (isspace c); lia.
Qed.

Lemma spaces_hash_found (p : nat) (s : str) :
  Plain.hash_after_spaces s = true ->
  match_at Pat.spaces_hash false p s
  = Some (mkState (S (p + Plain.leading_spaces s))
            (skipn (S (Plain.leading_spaces s)) s)
            [(1, (p, p + Plain.leading_spaces s))]).
Proof.
  intros Hh. destruct (@hash_split _ Hh) as (ws & post & E & Hws & Hl).
  rewrite Hl. subst s. rewrite (@spaces_hash_at p ws post Hws).
  f_equal. f_equal.
  replace (S (List.length ws)) with (1 + List.length ws) by lia.
  rewrite <- skipn_skipn, skipn_app, Nat.sub_diag, skipn_all.
  reflexivity.
Qed.

Lemma spaces_hash_fails (p : nat) (rst : str) :
  Plain.hash_after_spaces rst = false ->
  match_at Pat.spaces_hash false p rst = None.
Proof.
  intros Hf. destruct (match_at Pat.spaces_hash false p rst) eqn:H;
    [| reflexivity].
  exfalso. unfold match_at, Pat.spaces_hash, Lit in H.
  cbn [run rest pos caps] in H.
  apply ReFacts.rep_sound in H as [tk [r' [E [F [_ K]]]]].
  cbn [run rest pos caps cset_mem] in K.
  destruct r' as [| c r']; [discriminate K |].
  destruct (eqb_char "#" c) eqn:Hc; [| discriminate K].
  apply eqb_char_true in Hc. subst c rst.
  rewrite hash_unsplit in Hf by exact F. discriminate Hf.
Qed.

Lemma gap_found (s : str) :
  Plain.hash_after_spaces s = true ->
  forall run,
    Plain.gap_before_hash run s = Some (run + Plain.leading_spaces s).
Proof.
  induction s as [| c s IH]; simpl; intros H run; [discriminate H |].
  destruct (eqb_char c "#") eqn:Hc.
  - apply eqb_char_true in Hc. subst c.
    replace (isspace "#") with false by reflexivity.
    f_equal. lia.
  - destruct (isspace c); [| discriminate H].
    rewrite (IH H). f_equal. lia.
Qed.

Lemma gap_restart (s : str) :
  Plain.hash_after_spaces s = false ->
  forall run, Plain.gap_before_hash run s = Plain.gap_before_hash 0 s.
Proof.
  induction s as [| c s IH]; simpl; intros H run; [reflexivity |].
  destruct (eqb_char c "#"); [discriminate H |].
  destruct (isspace c); [| reflexivity].
  rewrite (IH H (S run)), (IH H 1). reflexivity.
Qed.

(** [search] with the pattern of S004 finds the first [#] of the text, and
    group 1 is the whitespace immediately before it. *)
Lemma search_gap :
  forall (rst pre : str),
    match search_from Pat.spaces_hash (pre ++ rst) (List.length pre) rst with
    | None => Plain.gap_before_hash 0 rst = None
    | Some m =>
        exists g,
          getitem m 1 = ret (Some g)
          /\ Plain.gap_before_hash 0 rst = Some (List.length g)
    end.
Proof.
  induction rst as [| c rst IH]; intros pre.
  - reflexivity.
  - cbn [search_from].
    destruct (Plain.hash_after_spaces (c :: rst)) eqn:Hh.
    + rewrite (@spaces_hash_found _ _ Hh).
      exists (firstn (Plain.leading_spaces (c :: rst)) (c :: rst)). split.
      * unfold getitem, to_match.
        cbn [m_ngroups m_groups m_string caps ngroups Pat.spaces_hash Lit
             Nat.max Nat.leb lookup Nat.eqb option_map fst snd].
        unfold slice.
        replace (List.length pre + Plain.leading_spaces (c :: rst)
                 - List.length pre)
          with (Plain.leading_spaces (c :: rst)) by lia.
        rewrite skipn_app, Nat.sub_diag, skipn_all. reflexivity.
      * rewrite (@gap_found _ Hh), length_firstn.
        pose proof (leading_spaces_le (c :: rst)). f_equal. lia.
    + rewrite (@spaces_hash_fails _ _ Hh).
      specialize (IH (pre ++ [c])).
      rewrite <- app_assoc, length_app in IH. cbn [app List.length] in IH.
      replace (List.length pre + 1) with (S (List.length pre)) in IH by lia.
      assert (Hg : Plain.gap_before_hash 0 (c :: rst)
                   = Plain.gap_before_hash 0 rst).
      { simpl in Hh |- *.
        destruct (eqb_char c "#"); [discriminate Hh |].
        destruct (isspace c); [| reflexivity].
        apply gap_restart. exact Hh. }
      rewrite Hg. exact IH.
Qed.

End GapFacts.

(** What [get_issue_004] computes: nothing on a line whose first character
    is [#]; otherwise an issue exactly when the line has a [#] and fewer
    than two whitespace characters stand immediately before the first
    one. *)
Lemma get_issue_004_spec (line : str) (n : nat) :
  get_issue_004 line n
  = ret (if startswith line $"#" then []
         else match Plain.gap_before_hash 0 line with
              | Some w => if w <? 2 then [S004 n] else []
              | None => []
              end).
Proof.
  unfold get_issue_004. destruct (startswith line $"#"); [reflexivity |].
  pose proof (GapFacts.search_gap line []) as H. cbn [app List.length] in H.
  unfold Re.search.
  destruct (Re.search_from Pat.spaces_hash line 0 line) as [m |].
  - destruct H as [g [Hg ->]]. cbn [Re.truthy negb subscript].
    rewrite Hg. cbn [bind ret len].
    destruct (_ <? 2); reflexivity.
  - rewrite H. reflexivity.
Qed.

(** X3. At a non-blank line that does not start with [#], the scanner reports
    S004 once when the line contains a [#] with fewer than two whitespace
    characters immediately before the first one, and not otherwise; a
    [#] inside a string literal counts like any other. *)
Theorem comment_spacing_at_line :
  forall (text : str) (k : nat) (line : str),
    nth_error (split Re.newline text) k = Some line ->
    Spec.blank line = false ->
    exists out,
      get_issues_by_line text = ret out
      /\ filter (has_code $"S004") (filter (at_line (S k)) out)
         = if startswith line $"#" then []
           else match Plain.gap_before_hash 0 line with
                | Some w => if w <? 2 then [S004 (S k)] else []
                | None => []
                end.
Proof.
  intros text k line Hn Hb.
  destruct (rule_at_line text k Hn Hb) as [out [Ho [_ [_ [H4 _]]]]].
  exists out. split; [exact Ho |].
  rewrite get_issue_004_spec in H4. apply ret_inj in H4. symmetry.
  exact H4.
Qed.

Lemma comment_spacing_at_line_witness :
  nth_error (split Re.newline $"url = 'a#b'") 0 = Some $"url = 'a#b'"
  /\ Spec.blank $"url = 'a#b'" = false
  /\ exists out,
      get_issues_by_line $"url = 'a#b'" = ret out
      /\ filter (has_code $"S004") (filter (at_line 1) out) = [S004 1].
Proof.
  split; [reflexivity |]. split; [reflexivity |].
  exact (@comment_spacing_at_line $"url = 'a#b'" 0 _ eq_refl eq_refl).
Defined.

(** ** Rule S005 *)

(** X4. At a non-blank line the scanner reports S005 once when the line
    contains a [#] and the whole line, the text before the [#] included,
    contains "todo" in any letter case; and not otherwise. *)
Theorem todo_at_line :
  forall (text : str) (k : nat) (line : str),
    nth_error (split Re.newline text) k = Some line ->
    Spec.blank line = false ->
    exists out,
      get_issues_by_line text = ret out
      /\ filter (has_code $"S005") (filter (at_line (S k)) out)
         = if contains_char line "#" && contains (lower line) $"todo"
           then [S005 (S k)] else [].
Proof.
  intros text k line Hn Hb.
  destruct (rule_at_line text k Hn Hb) as [out [Ho [_ [_ [_ [H5 _]]]]]].
  exists out. split; [exact Ho |].
  rewrite (@get_issue_005_whole_line line (S k) (line_no_newline _ _ Hn))
    in H5.
  apply ret_inj in H5. symmetry. exact H5.
Qed.

Lemma todo_at_line_witness :
  nth_error (split Re.newline $"x = 1  # ToDo: fix") 0
  = Some $"x = 1  # ToDo: fix"
  /\ Spec.blank $"x = 1  # ToDo: fix" = false
  /\ exists out,
      get_issues_by_line $"x = 1  # ToDo: fix" = ret out
      /\ filter (has_code $"S005") (filter (at_line 1) out) = [S005 1].
Proof.
  split; [reflexivity |]. split; [reflexivity |].
  exact (@todo_at_line $"x = 1  # ToDo: fix" 0 _ eq_refl eq_refl).
Defined.

(** ** Rule S007 *)

Module KeywordFacts.
Import Re.

(** A literal word matches the text that starts with it. *)
Lemma run_word (k : cont) (cp : list (nat * span)) :
  forall (w rst : str) (p : nat),
    run (Word w) k (mkState p rst cp)
    = if startswith rst w
      then k (mkState (p + List.length w) (skipn (List.length w) rst) cp)
      else None.
Proof.
  induction w as [| c w IH]; intros rst p.
  - cbn [Word run List.length skipn]. rewrite Nat.add_0_r.
    destruct rst; reflexivity.
  - destruct w as [| c2 w].
    + cbn [Word Lit run rest pos caps cset_mem List.length].
      destruct rst as [| x r]; [reflexivity |].
      rewrite startswith_char. cbn [skipn].
      replace (p + 1) with (S p) by lia. reflexivity.
    + change (Word (c :: c2 :: w)) with (Seq (Lit c) (Word (c2 :: w))).
      cbn [run Lit rest pos caps cset_mem].
      destruct rst as [| x r]; [reflexivity |].
      cbn [startswith]. destruct (eqb_char c x); [| reflexivity].
      rewrite IH. cbn [andb List.length skipn].
      replace (p + S (S (List.length w)))
        with (S p + S (List.length w)) by lia.
      reflexivity.
Qed.

(** [\s{2,}] before an accepting continuation: it succeeds exactly on a
    text that starts with two whitespace characters, and leaves the groups
    alone. *)
Lemma two_spaces_match (cp : list (nat * span)) (rst : str) (p : nat) :
  match rep CSpace true 2 (fun st => Some st) cp 0 rst p with
  | Some st => Plain.two_spaces rst = true /\ caps st = cp
  | None => Plain.two_spaces rst = false
  end.
Proof.
  destruct (rep CSpace true 2 (fun st => Some st) cp 0 rst p) eqn:H.
  - apply ReFacts.rep_sound in H as [tk [r' [E [F [L K]]]]].
    injection K as <-. split; [| reflexivity].
    subst rst. destruct tk as [| a [| b tk]]; simpl in L; try lia.
    simpl in F. apply andb_true_iff in F as [Ha F].
    apply andb_true_iff in F as [Hb _].
    simpl. rewrite Ha, Hb. reflexivity.
  - destruct rst as [| a [| b r]]; try reflexivity.
    simpl. destruct (isspace a) eqn:Ha; [| reflexivity].
    destruct (isspace b) eqn:Hb; [| reflexivity].
    exfalso. revert H. cbn [rep cset_mem Nat.leb]. rewrite Ha, Hb.
    unfold orelse.
    destruct (rep CSpace true 2 (fun st => Some st) cp 2 r (S (S p)))
      eqn:Hr; [discriminate |].
    exfalso. revert Hr. apply ReFacts.rep_some; [discriminate | lia].
Qed.

Lemma startswith_firstn :
  forall (w s : str), startswith s w = true -> firstn (List.length w) s = w.
Proof.
  induction w as [| c w IH]; intros s H; [reflexivity |].
  destruct s as [| x s]; [discriminate H |].
  cbn [startswith] in H. apply andb_true_iff in H as [Hc H].
  apply eqb_char_true in Hc. subst x. simpl. f_equal. apply IH. exact H.
Qed.

Lemma keyword_here_starts (s kw : str) :
  Plain.keyword_here s = Some kw -> firstn (List.length kw) s = kw.
Proof.
  unfold Plain.keyword_here. intros H.
  destruct (startswith s $"def" && Plain.two_spaces (skipn 3 s)) eqn:Hd.
  - injection H as <-. apply andb_true_iff in Hd as [Hd _].
    apply startswith_firstn. exact Hd.
  - destruct (startswith s $"class" && Plain.two_spaces (skipn 5 s))
      eqn:Hc; [| discriminate H].
    injection H as <-. apply andb_true_iff in Hc as [Hc _].
    apply startswith_firstn. exact Hc.
Qed.

(** The pattern of S007 at one offset. *)
Lemma keyword_match (p : nat) (rst : str) :
  match match_at Pat.keyword_spaces false p rst with
  | Some st =>
      exists kw,
        Plain.keyword_here rst = Some kw
        /\ caps st = [(1, (p, p + List.length kw))]
  | None => Plain.keyword_here rst = None
  end.
Proof.
  unfold match_at, Pat.keyword_spaces, Plain.keyword_here.
  cbn [run rest pos caps andb]. rewrite !run_word.
  cbn [rest pos caps].
  change (List.length $"def") with 3. change (List.length $"class") with 5.
  destruct (startswith rst $"def") eqn:Hd; cbn [andb orelse].
  - pose proof (two_spaces_match [(1, (p, p + 3))] (skipn 3 rst) (p + 3))
      as H.
    destruct (rep CSpace true 2 _ _ 0 (skipn 3 rst) (p + 3)) as [st |].
    + destruct H as [H1 H2]. rewrite H1. cbn [orelse].
      exists ($"def"). auto.
    + rewrite H. cbn [orelse].
      destruct (startswith rst $"class") eqn:Hc; [| reflexivity].
      exfalso. destruct rst as [| x rst]; [discriminate Hd |].
      cbn in Hd, Hc. apply andb_true_iff in Hd as [Hd _].
      apply andb_true_iff in Hc as [Hc _].
      apply eqb_char_true in Hd, Hc. congruence.
  - destruct (startswith rst $"class") eqn:Hc; cbn [andb];
      [| reflexivity].
    pose proof (two_spaces_match [(1, (p, p + 5))] (skipn 5 rst) (p + 5))
      as H.
    destruct (rep CSpace true 2 _ _ 0 (skipn 5 rst) (p + 5)) as [st |].
    + destruct H as [H1 H2]. rewrite H1. exists ($"class"). auto.
    + rewrite H. reflexivity.
Qed.

(** [search] with the pattern of S007 finds the leftmost keyword followed
    by two whitespace characters; group 1 is that keyword. *)
Lemma search_keyword :
  forall (rst pre : str),
    match search_from Pat.keyword_spaces (pre ++ rst) (List.length pre) rst
    with
    | None => Plain.first_keyword rst = None
    | Some m =>
        exists kw,
          getitem m 1 = ret (Some kw)
          /\ Plain.first_keyword rst = Some kw
    end.
Proof.
  assert (Hhere : forall (rst pre : str) (st : state),
             match_at Pat.keyword_spaces false (List.length pre) rst
             = Some st ->
             exists kw,
               getitem (to_match Pat.keyword_spaces (pre ++ rst)
                          (List.length pre) st) 1 = ret (Some kw)
               /\ Plain.keyword_here rst = Some kw).
  { intros rst pre st Hm.
    pose proof (keyword_match (List.length pre) rst) as H.
    rewrite Hm in H. destruct H as [kw [Hk Hc]].
    exists kw. split; [| exact Hk].
    unfold getitem, to_match.
    cbn [m_ngroups m_groups m_string]. rewrite Hc.
    cbn [ngroups Pat.keyword_spaces Nat.max Nat.leb lookup Nat.eqb
         option_map fst snd].
    unfold slice.
    replace (List.length pre + List.length kw - List.length pre)
      with (List.length kw) by lia.
    rewrite skipn_app, Nat.sub_diag, skipn_all. cbn [skipn app].
    rewrite (keyword_here_starts _ Hk). reflexivity. }
  induction rst as [| c rst IH]; intros pre; cbn [search_from].
  - pose proof (keyword_match (List.length pre) []) as H.
    destruct (match_at Pat.keyword_spaces false (List.length pre) [])
      as [st |] eqn:Hm.
    + destruct H as [kw [Hk _]]. discriminate Hk.
    + reflexivity.
  - pose proof (keyword_match (List.length pre) (c :: rst)) as H.
    destruct (match_at Pat.keyword_spaces false (List.length pre) (c :: rst))
      as [st |] eqn:Hm.
    + destruct (Hhere (c :: rst) pre st Hm) as [kw [Hg Hk]].
      exists kw. split; [exact Hg |].
      cbn [Plain.first_keyword]. rewrite Hk. reflexivity.
    + specialize (IH (pre ++ [c])).
      rewrite <- app_assoc, length_app in IH. cbn [app List.length] in IH.
      replace (List.length pre + 1) with (S (List.length pre)) in IH by lia.
      cbn [Plain.first_keyword]. rewrite H. exact IH.
Qed.

End KeywordFacts.

(** What [get_issue_007] computes: one issue, naming the keyword, when
    somewhere in the line [def] or [class] is followed by two whitespace
    characters; the keyword is that of the leftmost such place. *)
Lemma get_issue_007_spec (line : str) (n : nat) :
  get_issue_007 line n
  = ret (match Plain.first_keyword line with
         | Some kw => [S007_for kw n]
         | None => []
         end).
Proof.
  unfold get_issue_007.
  pose proof (KeywordFacts.search_keyword line []) as H.
  cbn [app List.length] in H. unfold Re.search.
  destruct (Re.search_from Pat.keyword_spaces line 0 line) as [m |].
  - destruct H as [kw [Hg ->]]. cbn [Re.truthy subscript].
    rewrite Hg. reflexivity.
  - rewrite H. reflexivity.
Qed.

(** X5. At a non-blank line the scanner reports S007 once, naming the keyword,
    when somewhere in the line the letters [def] or [class] are followed
    by two whitespace characters, be it inside a longer word, a string or
    a comment; and not otherwise.  The keyword named is that of the
    leftmost such place. *)
Theorem keyword_spacing_at_line :
  forall (text : str) (k : nat) (line : str),
    nth_error (split Re.newline text) k = Some line ->
    Spec.blank line = false ->
    exists out,
      get_issues_by_line text = ret out
      /\ filter (has_code $"S007") (filter (at_line (S k)) out)
         = match Plain.first_keyword line with
           | Some kw => [S007_for kw (S k)]
           | None => []
           end.
Proof.
  intros text k line Hn Hb.
  destruct (rule_at_line text k Hn Hb) as [out [Ho [_ [_ [_ [_ H7]]]]]].
  exists out. split; [exact Ho |].
  rewrite get_issue_007_spec in H7. apply ret_inj in H7. symmetry.
  exact H7.
Qed.

Lemma keyword_spacing_at_line_witness :
  nth_error (split Re.newline $"subclass  = 1") 0 = Some $"subclass  = 1"
  /\ Spec.blank $"subclass  = 1" = false
  /\ exists out,
      get_issues_by_line $"subclass  = 1" = ret out
      /\ filter (has_code $"S007") (filter (at_line 1) out)
         = [S007_for $"class" 1].
Proof.
  split; [reflexivity |]. split; [reflexivity |].
  exact (@keyword_spacing_at_line $"subclass  = 1" 0 _ eq_refl eq_refl).
Defined.

(* ================================================================= *)
(** * Invariants of the line pass *)

Lemma at_most_one_if (c m : str) (n : nat) (b : bool) :
  at_most_one c n (if b then ret [mkIssue c m n] else ret []).
Proof. destruct b; [right; exists m | left]; reflexivity. Qed.

Lemma at_most_one_of_spec (c m : str) (n : nat) (r : Res (list Issue))
      (b : bool) :
  r = ret (if b then [mkIssue c m n] else []) -> at_most_one c n r.
Proof. intros ->. destruct b; [right; exists m | left]; reflexivity. Qed.

Lemma get_issue_001_one (line : str) (n : nat) :
  at_most_one $"S001" n (get_issue_001 line n).
Proof. unfold get_issue_001. apply at_most_one_if. Qed.

Lemma get_issue_002_one (line : str) (n : nat) :
  at_most_one $"S002" n (get_issue_002 line n).
Proof.
  rewrite get_issue_002_spec.
  destruct (_ =? 0); [left | right; eexists]; reflexivity.
Qed.

Lemma get_issue_003_one (line : str) (n : nat) :
  at_most_one $"S003" n (get_issue_003 line n).
Proof. unfold get_issue_003. apply at_most_one_if. Qed.

Lemma get_issue_004_one (line : str) (n : nat) :
  at_most_one $"S004" n (get_issue_004 line n).
Proof.
  rewrite get_issue_004_spec.
  destruct (startswith line $"#"); [left; reflexivity |].
  destruct (Plain.gap_before_hash 0 line) as [w |]; [| left; reflexivity].
  destruct (w <? 2); [right; eexists | left]; reflexivity.
Qed.

Lemma get_issue_005_one (line : str) (n : nat) :
  at_most_one $"S005" n (get_issue_005 line n).
Proof.
  unfold get_issue_005.
  destruct (Re.search Pat.upto_comment line) as [m |]; simpl;
    [| left; reflexivity].
  apply at_most_one_if.
Qed.

Lemma get_issue_006_one (c n : nat) :
  at_most_one $"S006" n (get_issue_006 c n).
Proof. unfold get_issue_006. apply at_most_one_if. Qed.

Lemma get_issue_007_one (line : str) (n : nat) :
  at_most_one $"S007" n (get_issue_007 line n).
Proof.
  rewrite get_issue_007_spec.
  destruct (Plain.first_keyword line); [right; eexists | left]; reflexivity.
Qed.

Lemma at_most_one_list (c : str) (n : nat) (r : Res (list Issue))
      (l : list Issue) :
  at_most_one c n r -> r = ret l ->
  l = [] \/ exists m, l = [mkIssue c m n].
Proof.
  intros [E | [m E]] H; rewrite E in H; apply ret_inj in H; subst l;
    [left | right; exists m]; reflexivity.
Qed.

Section SortedApp.

Variable A : Type.
Variable R : A -> A -> Prop.

Lemma StronglySorted_app (l1 l2 : list A) :
  StronglySorted R l1 -> StronglySorted R l2 ->
  (forall a b, In a l1 -> In b l2 -> R a b) ->
  StronglySorted R (l1 ++ l2).
Proof.
  induction l1 as [| x l1 IH]; intros H1 H2 Hc; simpl; [exact H2 |].
  inversion H1 as [| ? ? Hs Hf]; subst. constructor.
  - apply IH; [exact Hs | exact H2 |].
    intros a b Ha Hb. apply Hc; [right; exact Ha | exact Hb].
  - apply Forall_app. split; [exact Hf |].
    apply Forall_forall. intros b Hb. apply Hc; [left; reflexivity | exact Hb].
Qed.

End SortedApp.

(** Two issues at the same line with codes in order. *)
Ltac same_line_le :=
  unfold key_le, key_leb, sort_key; cbn [fst snd line_nbr code];
  rewrite Nat.eqb_refl; apply orb_true_iff; right; vm_compute; reflexivity.

Ltac same_line_sorted :=
  repeat (apply SSorted_cons;
          [| repeat (apply Forall_cons; [same_line_le |]);
             apply Forall_nil]);
  apply SSorted_nil.

(** The issues of one line: all at that line and in the order of the
    report. *)
Lemma line_issues_sorted (line : str) (n c : nat) (here : list Issue) :
  line_issues line n c = ret here ->
  StronglySorted (key_le sort_key) here
  /\ Forall (fun i => line_nbr i = n) here.
Proof.
  intros Hh. split.
  - destruct (line_issues_parts line n c)
      as (l1 & l2 & l3 & l4 & l5 & l6 & l7
          & H1 & H2 & H3 & H4 & H5 & H6 & H7 & H).
    rewrite H in Hh. apply ret_inj in Hh. subst here.
    destruct (at_most_one_list (get_issue_001_one line n) H1)
      as [-> | [m1 ->]];
    destruct (at_most_one_list (get_issue_002_one line n) H2)
      as [-> | [m2 ->]];
    destruct (at_most_one_list (get_issue_003_one line n) H3)
      as [-> | [m3 ->]];
    destruct (at_most_one_list (get_issue_004_one line n) H4)
      as [-> | [m4 ->]];
    destruct (at_most_one_list (get_issue_005_one line n) H5)
      as [-> | [m5 ->]];
    destruct (at_most_one_list (get_issue_006_one c n) H6)
      as [-> | [m6 ->]];
    destruct (at_most_one_list (get_issue_007_one line n) H7)
      as [-> | [m7 ->]];
    cbn [app]; same_line_sorted.
  - destruct (line_issues_line line n c) as [here' [Hh' Hl]].
    rewrite Hh' in Hh. apply ret_inj in Hh. subst here'. exact Hl.
Qed.

Lemma sorted_fixed {A : Type} (key : A -> nat * str) (l : list A) :
  Sorted (key_le key) l -> sorted key l = l.
Proof.
  induction 1 as [| x l Hs IH Hh]; [reflexivity |].
  cbn [sorted]. rewrite IH. destruct Hh as [| y l' Hxy]; [reflexivity |].
  cbn [insert_by]. unfold key_le in Hxy. rewrite Hxy. reflexivity.
Qed.

(** The loop of the scanner: its issues are in the order of the report,
    and each is at the number of a non-blank line. *)
Lemma scan_lines_invariant :
  forall (lines : list str) (start c : nat) (out : list Issue),
    scan_lines (enumerate lines start) c = ret out ->
    StronglySorted (key_le sort_key) out
    /\ Forall (fun i =>
                 exists k line,
                   line_nbr i = start + k
                   /\ nth_error lines k = Some line
                   /\ Spec.blank line = false) out.
Proof.
  induction lines as [| l0 lines IH]; intros start c out H.
  - apply ret_inj in H. subst out. split; constructor.
  - rewrite enumerate_cons in H. cbn [scan_lines] in H.
    rewrite strip_empty_blank in H.
    assert (Hshift :
        forall (l : list Issue),
          Forall (fun i =>
                    exists k line,
                      line_nbr i = S start + k
                      /\ nth_error lines k = Some line
                      /\ Spec.blank line = false) l ->
          Forall (fun i =>
                    exists k line,
                      line_nbr i = start + k
                      /\ nth_error (l0 :: lines) k = Some line
                      /\ Spec.blank line = false) l).
    { intros l Hl. eapply Forall_impl; [| exact Hl].
      intros i (k & line & E & Hn & Hb). exists (S k), line.
      repeat split; [lia | exact Hn | exact Hb]. }
    destruct (Spec.blank l0) eqn:Hb0.
    + destruct (IH _ _ _ H) as [Hs Hf]. split; [exact Hs |].
      apply Hshift. exact Hf.
    + apply bind_ret_inv in H as [here [Hh H]].
      apply bind_ret_inv in H as [later [Hl H]].
      apply ret_inj in H. subst out.
      destruct (IH _ _ _ Hl) as [Hs Hf].
      destruct (line_issues_sorted _ _ _ Hh) as [Hhs Hhl].
      split.
      * apply StronglySorted_app; [exact Hhs | exact Hs |].
        intros a b Ha Hb.
        rewrite Forall_forall in Hhl, Hf.
        specialize (Hhl a Ha). destruct (Hf b Hb) as (k & _ & E & _).
        unfold key_le, key_leb, sort_key. cbn [fst snd].
        apply orb_true_iff. left. apply Nat.ltb_lt. lia.
      * apply Forall_app. split; [| apply Hshift; exact Hf].
        eapply Forall_impl; [| exact Hhl].
        intros i Hi. exists 0, l0. rewrite Nat.add_0_r. auto.
Qed.

(** X6. The line pass yields its issues in the order of the report: sorting
    its output by [(line_nbr, code)] changes nothing. *)
Theorem line_pass_in_report_order :
  forall (text : str),
  exists out,
    get_issues_by_line text = ret out
    /\ StronglySorted (key_le sort_key) out
    /\ sorted sort_key out = out.
Proof.
  intros text. destruct (get_issues_by_line_spec text) as [out [Ho _]].
  exists out. split; [exact Ho |].
  destruct (scan_lines_invariant _ _ _ Ho) as [Hs _].
  split; [exact Hs |].
  apply sorted_fixed, StronglySorted_Sorted. exact Hs.
Qed.

(** X7. Every issue of the line pass is at the number of a non-blank line of
    the text: blank lines, however long, carry no issue, and no line
    number is out of range. *)
Theorem line_pass_line_numbers :
  forall (text : str),
  exists out,
    get_issues_by_line text = ret out
    /\ forall i,
        In i out ->
        exists k line,
          line_nbr i = S k
          /\ nth_error (split Re.newline text) k = Some line
          /\ Spec.blank line = false.
Proof.
  intros text. destruct (get_issues_by_line_spec text) as [out [Ho _]].
  exists out. split; [exact Ho |].
  destruct (scan_lines_invariant _ _ _ Ho) as [_ Hf].
  rewrite Forall_forall in Hf. exact Hf.
Qed.

Lemma filter_length_le_one (c ci : str) (n : nat) (l : list Issue) :
  (l = [] \/ exists m, l = [mkIssue ci m n]) ->
  List.length (filter (has_code c) l) <= (if eqb ci c then 1 else 0).
Proof.
  intros [-> | [m ->]]; simpl; [lia |].
  unfold has_code. cbn [code]. destruct (eqb ci c); simpl; lia.
Qed.

(** X8. The line pass reports at most one issue per rule and line. *)
Theorem line_pass_no_duplicates :
  forall (text : str),
  exists out,
    get_issues_by_line text = ret out
    /\ forall (c : str) (n : nat),
        List.length (filter (has_code c) (filter (at_line n) out)) <= 1.
Proof.
  intros text. destruct (get_issues_by_line_spec text) as [out [Ho Hk]].
  exists out. split; [exact Ho |]. intros c n.
  destruct (filter (at_line n) out) as [| i0 rest0] eqn:Hf; [simpl; lia |].
  assert (Hin : In i0 out /\ at_line n i0 = true).
  { apply filter_In. rewrite Hf. left. reflexivity. }
  destruct Hin as [Hin Hn]. unfold at_line in Hn. apply Nat.eqb_eq in Hn.
  subst n.
  destruct (scan_lines_invariant _ _ _ Ho) as [_ Hall].
  rewrite Forall_forall in Hall.
  destruct (Hall i0 Hin) as (k & line & E & Hnth & Hb).
  simpl in E. rewrite E in Hf.
  destruct (Hk k line Hnth Hb) as [here [Hh Hhere]].
  rewrite <- Hf, Hhere.
  destruct (line_issues_parts line (S k)
              (Spec.preceding_blanks (split Re.newline text) k))
    as (l1 & l2 & l3 & l4 & l5 & l6 & l7
        & H1 & H2 & H3 & H4 & H5 & H6 & H7 & H).
  rewrite H in Hh. apply ret_inj in Hh. subst here.
  rewrite !filter_app, !length_app.
  pose proof (filter_length_le_one c
                (at_most_one_list (get_issue_001_one line (S k)) H1)) as B1.
  pose proof (filter_length_le_one c
                (at_most_one_list (get_issue_002_one line (S k)) H2)) as B2.
  pose proof (filter_length_le_one c
                (at_most_one_list (get_issue_003_one line (S k)) H3)) as B3.
  pose proof (filter_length_le_one c
                (at_most_one_list (get_issue_004_one line (S k)) H4)) as B4.
  pose proof (filter_length_le_one c
                (at_most_one_list (get_issue_005_one line (S k)) H5)) as B5.
  pose proof (filter_length_le_one c
                (at_most_one_list (get_issue_006_one _ (S k)) H6)) as B6.
  pose proof (filter_length_le_one c
                (at_most_one_list (get_issue_007_one line (S k)) H7)) as B7.
  destruct (eqb $"S001" c) eqn:E1;
    [apply eqb_true in E1; subst c; simpl in *; lia |].
  destruct (eqb $"S002" c) eqn:E2;
    [apply eqb_true in E2; subst c; simpl in *; lia |].
  destruct (eqb $"S003" c) eqn:E3;
    [apply eqb_true in E3; subst c; simpl in *; lia |].
  destruct (eqb $"S004" c) eqn:E4;
    [apply eqb_true in E4; subst c; simpl in *; lia |].
  destruct (eqb $"S005" c) eqn:E5;
    [apply eqb_true in E5; subst c; simpl in *; lia |].
  destruct (eqb $"S006" c) eqn:E6;
    [apply eqb_true in E6; subst c; simpl in *; lia |].
  destruct (eqb $"S007" c) eqn:E7; lia.
Qed.

(** ** Rule S001 at every line *)

(** X1. At every line of a text the scanner reports S001 once when the
    line is not blank and has more than 79 characters, and not otherwise:
    a whitespace-only line is never reported, however long. *)
Theorem too_long_at_line :
  forall (text : str) (k : nat) (line : str),
    nth_error (split Re.newline text) k = Some line ->
    exists out,
      get_issues_by_line text = ret out
      /\ filter (has_code $"S001") (filter (at_line (S k)) out)
         = if Spec.blank line then []
           else if 79 <? List.length line then [S001 (S k)] else [].
Proof.
  intros text k line Hn.
  destruct (Spec.blank line) eqn:Hb.
  - destruct (get_issues_by_line_spec text) as [out [Ho _]].
    exists out. split; [exact Ho |].
    destruct (scan_lines_invariant _ _ _ Ho) as [_ Hall].
    rewrite Forall_forall in Hall.
    replace (filter (at_line (S k)) out) with (@nil Issue);
      [reflexivity |].
    symmetry. apply filter_none. apply Forall_forall. intros i Hi. unfold at_line.
    apply Nat.eqb_neq. intros E.
    destruct (Hall i Hi) as (k' & line' & E' & Hn' & Hb').
    simpl in E'. assert (k' = k) by lia. subst k'.
    rewrite Hn in Hn'. injection Hn' as <-. congruence.
  - destruct (rule_at_line text k Hn Hb) as [out [Ho [H1 _]]].
    exists out. split; [exact Ho |].
    unfold get_issue_001 in H1.
    destruct (79 <? List.length line); apply ret_inj in H1; rewrite <- H1;
      reflexivity.
Qed.

(** Eighty spaces are not reported, eighty letters are. *)
Lemma too_long_at_line_witness :
  (nth_error (split Re.newline long_lines_text) 0
   = Some (repeat " "%char 80)
   /\ exists out,
       get_issues_by_line long_lines_text = ret out
       /\ filter (has_code $"S001") (filter (at_line 1) out) = [])
  /\ (nth_error (split Re.newline long_lines_text) 1
      = Some (repeat "x"%char 80)
      /\ exists out,
          get_issues_by_line long_lines_text = ret out
          /\ filter (has_code $"S001") (filter (at_line 2) out) = [S001 2]).
Proof.
  split; (split; [reflexivity |]).
  - exact (@too_long_at_line long_lines_text 0 _ eq_refl).
  - exact (@too_long_at_line long_lines_text 1 _ eq_refl).
Defined.

(* ================================================================= *)
(** * The node pass over the whole tree *)

Lemma flat_map_subtree_nodes (l : list node) :
  flat_map subtree (map ANode l)
  = flat_map (fun x => ANode x :: nodes_below x) l.
Proof. induction l as [| x l IH]; simpl; [| rewrite IH]; reflexivity. Qed.

Lemma flat_map_subtree_args (l : list arg) :
  flat_map subtree (map AArg l)
  = flat_map (fun x => AArg x :: below_arg x) l.
Proof. induction l as [| x l IH]; simpl; [| rewrite IH]; reflexivity. Qed.

Lemma flat_map_somes (l : list (option node)) :
  flat_map (fun x => ANode x :: nodes_below x) (somes l)
  = flat_map (fun k => match k with
                       | Some x => ANode x :: nodes_below x
                       | None => []
                       end) l.
Proof.
  unfold somes.
  induction l as [| [x |] l IH]; simpl; [| rewrite IH |]; auto.
Qed.

Lemma flat_map_opt_node (o : option node) :
  flat_map (fun x => ANode x :: nodes_below x) (opt_list o)
  = match o with Some x => ANode x :: nodes_below x | None => [] end.
Proof. destruct o; simpl; [rewrite app_nil_r |]; reflexivity. Qed.

Lemma flat_map_opt_arg (o : option arg) :
  flat_map (fun x => AArg x :: below_arg x) (opt_list o)
  = match o with Some x => AArg x :: below_arg x | None => [] end.
Proof. destruct o; simpl; [rewrite app_nil_r |]; reflexivity. Qed.

Lemma flat_map_cons {A B : Type} (f : A -> list B) (x : A) (l : list A) :
  flat_map f (x :: l) = f x ++ flat_map f l.
Proof. reflexivity. Qed.

(** Below a node are its children and what is below them. *)
Lemma below_children (a : AST) :
  below a = flat_map subtree (iter_child_nodes a).
Proof.
  destruct a as [n | a | a].
  - destruct n as [body | [name bases keywords body decos tps l]
                  | [name args body decos returns tps l]
                  | [name args body decos returns tps l]
                  | targets value l | id ctx l | elts ctx l
                  | keys values l | elts l | args body l | children];
      cbn [iter_child_nodes below nodes_below below_classdef
           below_funcdef];
      rewrite ?map_app; cbn [map];
      repeat (rewrite flat_map_app
              || rewrite flat_map_subtree_nodes
              || rewrite flat_map_somes
              || rewrite flat_map_opt_node
              || rewrite (flat_map_cons subtree));
      unfold subtree; cbn [below app flat_map];
      rewrite ?app_nil_r, <- ?app_assoc;
      reflexivity.
  - destruct a as [po args va kwo kwd kwa defaults].
    cbn [iter_child_nodes below below_arguments].
    rewrite ?map_app, ?flat_map_app, ?flat_map_subtree_nodes,
      ?flat_map_subtree_args, ?flat_map_app, ?flat_map_somes,
      ?flat_map_opt_arg, <- ?app_assoc.
    reflexivity.
  - destruct a as [name annotation l].
    cbn [iter_child_nodes below below_arg].
    rewrite flat_map_subtree_nodes, flat_map_opt_node. reflexivity.
Qed.

(** With enough fuel the loop of [walk] yields the nodes of the queue and
    all the nodes below them, each as often as it occurs. *)
Lemma walk_loop_perm :
  forall (fuel : nat) (todo : list AST),
    list_sum (map size todo) <= fuel ->
    Permutation (fst (walk_loop fuel todo)) (flat_map subtree todo).
Proof.
  induction fuel as [| fuel IH]; intros todo Hfuel.
  - destruct todo as [| n todo]; [constructor |].
    simpl in Hfuel. rewrite (size_children n) in Hfuel. lia.
  - destruct todo as [| n todo]; [constructor |].
    cbn [walk_loop].
    destruct (walk_loop fuel (todo ++ iter_child_nodes n))
      as [yielded left] eqn:Hw.
    assert (Hp : Permutation yielded
                   (flat_map subtree (todo ++ iter_child_nodes n))).
    { replace yielded
        with (fst (walk_loop fuel (todo ++ iter_child_nodes n)))
        by (rewrite Hw; reflexivity).
      apply IH. rewrite map_app, list_sum_app. simpl in Hfuel.
      rewrite (size_children n) in Hfuel. lia. }
    cbn [fst flat_map subtree app]. constructor.
    rewrite below_children.
    eapply Permutation_trans; [exact Hp |].
    rewrite flat_map_app. apply Permutation_app_comm.
Qed.

(** [walk] yields the nodes of the tree, each once. *)
Lemma walk_perm (tree : node) :
  Permutation (walk tree) (subtree (ANode tree)).
Proof.
  unfold walk.
  eapply Permutation_trans.
  - apply walk_loop_perm. simpl. lia.
  - simpl. rewrite app_nil_r. apply Permutation_refl.
Qed.

(** X9. When the text parses, the node pass reports, up to order, what the
    detectors yield on every node of the tree, each node being inspected
    once, at whatever depth it lies. *)
Theorem node_pass_covers_tree :
  forall (ast_parse : str -> Res node) (text : str) (tree : node),
    ast_parse text = ret tree ->
    exists out,
      get_issues_by_node ast_parse text = ret out
      /\ Permutation out (flat_map node_issues (subtree (ANode tree))).
Proof.
  intros ast_parse text tree Hp.
  exists (flat_map node_issues (walk tree)).
  split; [unfold get_issues_by_node; rewrite Hp; reflexivity |].
  apply Permutation_flat_map, walk_perm.
Qed.

Lemma node_pass_covers_tree_witness :
  parse_only scenario_text (ret scenario_tree) scenario_text
  = ret scenario_tree
  /\ exists out,
      get_issues_by_node (parse_only scenario_text (ret scenario_tree))
        scenario_text = ret out
      /\ Permutation out
           (flat_map node_issues (subtree (ANode scenario_tree))).
Proof.
  split; [reflexivity |].
  exact (@node_pass_covers_tree
           (parse_only scenario_text (ret scenario_tree))
           scenario_text scenario_tree eq_refl).
Defined.

(** The issues of the node pass are those of the loop body on the nodes
    of the tree. *)
Lemma node_pass_In (ast_parse : str -> Res node) (text : str)
      (tree : node) :
  ast_parse text = ret tree ->
  exists out,
    get_issues_by_node ast_parse text = ret out
    /\ forall i,
        In i out
        <-> exists a,
            In a (subtree (ANode tree)) /\ In i (node_issues a).
Proof.
  intros Hp.
  exists (flat_map node_issues (walk tree)).
  split; [unfold get_issues_by_node; rewrite Hp; reflexivity |].
  assert (Hperm : Permutation (flat_map node_issues (walk tree))
                    (flat_map node_issues (subtree (ANode tree))))
    by apply Permutation_flat_map, walk_perm.
  intros i. split.
  - intros Hi. apply (Permutation_in _ Hperm) in Hi.
    apply in_flat_map in Hi. exact Hi.
  - intros Ha. apply (Permutation_in _ (Permutation_sym Hperm)).
    apply in_flat_map. exact Ha.
Qed.

Lemma node_issues_class (c : classdef) :
  node_issues (ANode (ClassDef c)) = get_issue_008 c.
Proof. unfold node_issues. apply app_nil_r. Qed.

Lemma node_issues_function (f : funcdef) :
  node_issues (ANode (FunctionDef f))
  = get_issue_009 f ++ get_issue_010 f ++ get_issue_011 f
    ++ get_issue_012 f.
Proof. reflexivity. Qed.

(** What [get_issue_008] computes: nothing when the class name starts
    with an uppercase ASCII letter, one issue otherwise. *)
Lemma get_issue_008_spec (c : classdef) :
  get_issue_008 c
  = if Plain.upper_first (cls_name c) then [] else [S008_for c].
Proof.
  unfold get_issue_008, Pat.camel. rewrite ReFacts.match_one_then_any.
  unfold Plain.upper_first, S008_for.
  destruct (cls_name c) as [| x name]; [reflexivity |].
  cbn [Re.cset_mem].
  change (PyStr.code "A") with 65. change (PyStr.code "Z") with 90.
  destruct (in_range 65 90 x); reflexivity.
Qed.

Lemma get_issue_009_spec (f : funcdef) :
  get_issue_009 f
  = if Spec.first_char_ok (fn_name f) then [] else [S009_for f].
Proof.
  unfold get_issue_009. rewrite is_snake_case_first.
  destruct (Spec.first_char_ok (fn_name f)); reflexivity.
Qed.

(** The issues of one function rule among those of a function node. *)
Lemma function_rule_In (f : funcdef) (i : Issue) :
  In i (get_issue_009 f ++ get_issue_010 f ++ get_issue_011 f
        ++ get_issue_012 f) ->
  (code i = $"S009" -> In i (get_issue_009 f))
  /\ (code i = $"S010" -> In i (get_issue_010 f))
  /\ (code i = $"S011" -> In i (get_issue_011 f))
  /\ (code i = $"S012" -> In i (get_issue_012 f)).
Proof.
  intros H.
  assert (H12 : In i (get_issue_012 f) -> code i = $"S012").
  { intros Hi. apply get_issue_012_In in Hi as (d & l & _ & _ & _ & ->).
    reflexivity. }
  apply in_app_or in H as [H | H];
    [pose proof (get_issue_009_code _ _ H) as Hc |
     apply in_app_or in H as [H | H];
     [pose proof (get_issue_010_code _ _ H) as Hc |
      apply in_app_or in H as [H | H];
      [pose proof (get_issue_011_code _ _ H) as Hc |
       pose proof (H12 H) as Hc]]];
    repeat split; intros Hc'; try exact H;
    rewrite Hc in Hc'; discriminate Hc'.
Qed.

(** X10. When the text parses, the node pass reports S008 for exactly the class
    definitions of the tree, at any depth, whose name does not start with
    an uppercase ASCII letter. *)
Theorem class_names_over_tree :
  forall (ast_parse : str -> Res node) (text : str) (tree : node),
    ast_parse text = ret tree ->
    exists out,
      get_issues_by_node ast_parse text = ret out
      /\ forall i,
          (In i out /\ code i = $"S008")
          <-> exists c,
              In (ANode (ClassDef c)) (subtree (ANode tree))
              /\ Plain.upper_first (cls_name c) = false
              /\ i = S008_for c.
Proof.
  intros ast_parse text tree Hp.
  destruct (node_pass_In ast_parse text Hp) as [out [Ho Hin]].
  exists out. split; [exact Ho |]. intros i. split.
  - intros [Hi Hc]. apply Hin in Hi as [a [Ha Hi]].
    apply node_issues_In in Hi as [[c [-> Hi]] | [f [-> Hi]]].
    + exists c. split; [exact Ha |].
      rewrite get_issue_008_spec in Hi.
      destruct (Plain.upper_first (cls_name c)); [destruct Hi |].
      destruct Hi as [<- | []]. split; reflexivity.
    + exfalso.
      apply in_app_or in Hi as [Hi | Hi];
        [apply get_issue_009_code in Hi; rewrite Hi in Hc; discriminate Hc |].
      apply in_app_or in Hi as [Hi | Hi];
        [apply get_issue_010_code in Hi; rewrite Hi in Hc; discriminate Hc |].
      apply in_app_or in Hi as [Hi | Hi];
        [apply get_issue_011_code in Hi; rewrite Hi in Hc; discriminate Hc |].
      apply get_issue_012_In in Hi as (d & l & _ & _ & _ & ->).
      discriminate Hc.
  - intros [c [Ha [Hu ->]]]. split; [| reflexivity].
    apply Hin. exists (ANode (ClassDef c)). split; [exact Ha |].
    rewrite node_issues_class, get_issue_008_spec, Hu. left. reflexivity.
Qed.

Lemma class_names_over_tree_witness :
  parse_only scenario_text (ret scenario_tree) scenario_text
  = ret scenario_tree
  /\ exists out,
      get_issues_by_node (parse_only scenario_text (ret scenario_tree))
        scenario_text = ret out
      /\ In (mkIssue $"S008" $"Class name 'myClass' should use CamelCase" 1)
           out.
Proof.
  split; [reflexivity |].
  destruct (@class_names_over_tree
              (parse_only scenario_text (ret scenario_tree))
              scenario_text scenario_tree eq_refl) as [out [Ho Hi]].
  exists out. split; [exact Ho |].
  apply Hi.
  exists (mk_classdef $"myClass" [] []
            [FunctionDef
               (mk_funcdef $"MyMethod"
                  (mk_arguments []
                     [mk_arg $"self" None 2; mk_arg $"X" None 2]
                     None [] [] None [])
                  [Assign [Name $"y" Store 3]
                     (List_ [Constant; Constant] Load 3) 3;
                   Assign [Name $"z" Store 3] Constant 3]
                  [] None [] 2)]
            [] [] 1).
  split; [right; left; reflexivity |]. split; reflexivity.
Defined.

(** A plain function definition of the tree and one of its issues. *)
Lemma function_issue_In (ast_parse : str -> Res node) (text : str)
      (tree : node) :
  ast_parse text = ret tree ->
  exists out,
    get_issues_by_node ast_parse text = ret out
    /\ (forall i f,
           In (ANode (FunctionDef f)) (subtree (ANode tree)) ->
           In i (get_issue_009 f ++ get_issue_010 f ++ get_issue_011 f
                 ++ get_issue_012 f) ->
           In i out)
    /\ (forall i,
           In i out -> code i <> $"S008" ->
           exists f,
             In (ANode (FunctionDef f)) (subtree (ANode tree))
             /\ In i (get_issue_009 f ++ get_issue_010 f
                      ++ get_issue_011 f ++ get_issue_012 f)).
Proof.
  intros Hp. destruct (node_pass_In ast_parse text Hp) as [out [Ho Hin]].
  exists out. split; [exact Ho |]. split.
  - intros i f Hf Hi. apply Hin. exists (ANode (FunctionDef f)).
    split; [exact Hf |]. rewrite node_issues_function. exact Hi.
  - intros i Hi Hc. apply Hin in Hi as [a [Ha Hi]].
    apply node_issues_In in Hi as [[c [-> Hi]] | [f [-> Hi]]].
    + apply get_issue_008_code in Hi. contradiction.
    + exists f. auto.
Qed.

(** X11. When the text parses, the node pass reports S009 for exactly the plain
    function definitions of the tree, methods and nested functions
    included, whose name does not start with a lowercase ASCII letter or
    an underscore. *)
Theorem function_names_over_tree :
  forall (ast_parse : str -> Res node) (text : str) (tree : node),
    ast_parse text = ret tree ->
    exists out,
      get_issues_by_node ast_parse text = ret out
      /\ forall i,
          (In i out /\ code i = $"S009")
          <-> exists f,
              In (ANode (FunctionDef f)) (subtree (ANode tree))
              /\ Spec.first_char_ok (fn_name f) = false
              /\ i = S009_for f.
Proof.
  intros ast_parse text tree Hp.
  destruct (function_issue_In ast_parse text Hp) as [out [Ho [Hto Hfrom]]].
  exists out. split; [exact Ho |]. intros i. split.
  - intros [Hi Hc].
    destruct (Hfrom i Hi) as [f [Hf Hissue]];
      [rewrite Hc; discriminate |].
    exists f. split; [exact Hf |].
    apply function_rule_In in Hissue as [H9 _]. specialize (H9 Hc).
    rewrite get_issue_009_spec in H9.
    destruct (Spec.first_char_ok (fn_name f)); [destruct H9 |].
    destruct H9 as [<- | []]. split; reflexivity.
  - intros [f [Hf [Hn ->]]]. split; [| reflexivity].
    apply (Hto _ f Hf). apply in_or_app. left.
    rewrite get_issue_009_spec, Hn. left. reflexivity.
Qed.

Lemma function_names_over_tree_witness :
  parse_only scenario_text (ret scenario_tree) scenario_text
  = ret scenario_tree
  /\ exists out,
      get_issues_by_node (parse_only scenario_text (ret scenario_tree))
        scenario_text = ret out
      /\ forall i,
          (In i out /\ code i = $"S009")
          <-> exists f,
              In (ANode (FunctionDef f)) (subtree (ANode scenario_tree))
              /\ Spec.first_char_ok (fn_name f) = false
              /\ i = S009_for f.
Proof.
  split; [reflexivity |].
  exact (@function_names_over_tree
           (parse_only scenario_text (ret scenario_tree))
           scenario_text scenario_tree eq_refl).
Defined.

(** X12. When the text parses, the node pass reports S010 for exactly the
    parameters in [args.args] of the plain function definitions of the
    tree whose name fails the first-character test; positional-only and
    keyword-only parameters, [*args], [**kwargs] and the parameters of
    lambdas and of asynchronous functions are never reported. *)
Theorem argument_names_over_tree :
  forall (ast_parse : str -> Res node) (text : str) (tree : node),
    ast_parse text = ret tree ->
    exists out,
      get_issues_by_node ast_parse text = ret out
      /\ forall i,
          (In i out /\ code i = $"S010")
          <-> exists f a,
              In (ANode (FunctionDef f)) (subtree (ANode tree))
              /\ In a (args_args (fn_args f))
              /\ Spec.first_char_ok (arg_arg a) = false
              /\ i = S010_for a.
Proof.
  intros ast_parse text tree Hp.
  destruct (function_issue_In ast_parse text Hp) as [out [Ho [Hto Hfrom]]].
  exists out. split; [exact Ho |]. intros i. split.
  - intros [Hi Hc].
    destruct (Hfrom i Hi) as [f [Hf Hissue]];
      [rewrite Hc; discriminate |].
    exists f.
    apply function_rule_In in Hissue as [_ [H10 _]]. specialize (H10 Hc).
    apply get_issue_010_In in H10 as [a [Ha [Hn ->]]].
    exists a. auto.
  - intros [f [a [Hf [Ha [Hn ->]]]]]. split; [| reflexivity].
    apply (Hto _ f Hf). apply in_or_app. right. apply in_or_app. left.
    apply get_issue_010_In. exists a. auto.
Qed.

Lemma argument_names_over_tree_witness :
  parse_only scenario_text (ret scenario_tree) scenario_text
  = ret scenario_tree
  /\ exists out,
      get_issues_by_node (parse_only scenario_text (ret scenario_tree))
        scenario_text = ret out
      /\ forall i,
          (In i out /\ code i = $"S010")
          <-> exists f a,
              In (ANode (FunctionDef f)) (subtree (ANode scenario_tree))
              /\ In a (args_args (fn_args f))
              /\ Spec.first_char_ok (arg_arg a) = false
              /\ i = S010_for a.
Proof.
  split; [reflexivity |].
  exact (@argument_names_over_tree
           (parse_only scenario_text (ret scenario_tree))
           scenario_text scenario_tree eq_refl).
Defined.

(** X13. When the text parses, the node pass reports S011 for exactly the
    plain-name targets, failing the first-character test, of the [Assign]
    statements that stand directly in the body of a plain function
    definition of the tree, at the line of the statement.  Assignments at
    module or class level, inside a nested block, to attributes,
    subscripts or tuples, and annotated or augmented assignments are never
    reported. *)
Theorem variable_names_over_tree :
  forall (ast_parse : str -> Res node) (text : str) (tree : node),
    ast_parse text = ret tree ->
    exists out,
      get_issues_by_node ast_parse text = ret out
      /\ forall i,
          (In i out /\ code i = $"S011")
          <-> exists f targets value lineno name ctx l,
              In (ANode (FunctionDef f)) (subtree (ANode tree))
              /\ In (Assign targets value lineno) (fn_body f)
              /\ In (Name name ctx l) targets
              /\ Spec.first_char_ok name = false
              /\ i = S011_for name lineno.
Proof.
  intros ast_parse text tree Hp.
  destruct (function_issue_In ast_parse text Hp) as [out [Ho [Hto Hfrom]]].
  exists out. split; [exact Ho |]. intros i. split.
  - intros [Hi Hc].
    destruct (Hfrom i Hi) as [f [Hf Hissue]];
      [rewrite Hc; discriminate |].
    exists f.
    apply function_rule_In in Hissue as [_ [_ [H11 _]]].
    specialize (H11 Hc).
    apply get_issue_011_In in H11
      as (targets & value & lineno & name & ctx & l & Hs & Ht & Hn & ->).
    exists targets, value, lineno, name, ctx, l. auto.
  - intros (f & targets & value & lineno & name & ctx & l
            & Hf & Hs & Ht & Hn & ->).
    split; [| reflexivity].
    apply (Hto _ f Hf). apply in_or_app. right. apply in_or_app. right.
    apply in_or_app. left.
    apply get_issue_011_In. exists targets, value, lineno, name, ctx, l.
    auto.
Qed.

Lemma variable_names_over_tree_witness :
  parse_only $"def Bad(X=[]): Y = 1" (ret plain_sample) $"def Bad(X=[]): Y = 1"
  = ret plain_sample
  /\ exists out,
      get_issues_by_node
        (parse_only $"def Bad(X=[]): Y = 1" (ret plain_sample))
        $"def Bad(X=[]): Y = 1" = ret out
      /\ forall i,
          (In i out /\ code i = $"S011")
          <-> exists f targets value lineno name ctx l,
              In (ANode (FunctionDef f)) (subtree (ANode plain_sample))
              /\ In (Assign targets value lineno) (fn_body f)
              /\ In (Name name ctx l) targets
              /\ Spec.first_char_ok name = false
              /\ i = S011_for name lineno.
Proof.
  split; [reflexivity |].
  exact (@variable_names_over_tree
           (parse_only $"def Bad(X=[]): Y = 1" (ret plain_sample))
           $"def Bad(X=[]): Y = 1" plain_sample eq_refl).
Defined.

(** X14. When the text parses, the node pass reports S012 for exactly the
    literal lists, dictionaries and sets among [args.defaults] of the
    plain function definitions of the tree, at the line of the default.
    A mutable value built by a call, or nested inside a tuple, and the
    defaults of lambdas are never reported. *)
Theorem mutable_defaults_over_tree :
  forall (ast_parse : str -> Res node) (text : str) (tree : node),
    ast_parse text = ret tree ->
    exists out,
      get_issues_by_node ast_parse text = ret out
      /\ forall i,
          (In i out /\ code i = $"S012")
          <-> exists f d l,
              In (ANode (FunctionDef f)) (subtree (ANode tree))
              /\ In d (args_defaults (fn_args f))
              /\ Spec.mutable_literal d = true
              /\ Spec.lineno_of d = Some l
              /\ i = S012_at l.
Proof.
  intros ast_parse text tree Hp.
  destruct (function_issue_In ast_parse text Hp) as [out [Ho [Hto Hfrom]]].
  exists out. split; [exact Ho |]. intros i. split.
  - intros [Hi Hc].
    destruct (Hfrom i Hi) as [f [Hf Hissue]];
      [rewrite Hc; discriminate |].
    exists f.
    apply function_rule_In in Hissue as [_ [_ [_ H12]]].
    specialize (H12 Hc).
    apply get_issue_012_In in H12 as (d & l & Hd & Hm & Hl & ->).
    exists d, l. auto.
  - intros (f & d & l & Hf & Hd & Hm & Hl & ->).
    split; [| reflexivity].
    apply (Hto _ f Hf). apply in_or_app. right. apply in_or_app. right.
    apply in_or_app. right.
    apply get_issue_012_In. exists d, l. auto.
Qed.

Lemma mutable_defaults_over_tree_witness :
  parse_only $"def Bad(X=[]): Y = 1" (ret plain_sample) $"def Bad(X=[]): Y = 1"
  = ret plain_sample
  /\ exists out,
      get_issues_by_node
        (parse_only $"def Bad(X=[]): Y = 1" (ret plain_sample))
        $"def Bad(X=[]): Y = 1" = ret out
      /\ forall i,
          (In i out /\ code i = $"S012")
          <-> exists f d l,
              In (ANode (FunctionDef f)) (subtree (ANode plain_sample))
              /\ In d (args_defaults (fn_args f))
              /\ Spec.mutable_literal d = true
              /\ Spec.lineno_of d = Some l
              /\ i = S012_at l.
Proof.
  split; [reflexivity |].
  exact (@mutable_defaults_over_tree
           (parse_only $"def Bad(X=[]): Y = 1" (ret plain_sample))
           $"def Bad(X=[]): Y = 1" plain_sample eq_refl).
Defined.

(* ================================================================= *)
(** * The main block *)

Section DriverFacts.

Variable ast_parse : str -> Res node.

Lemma check_file_raises (filepath text : str) (e : exn) :
  ast_parse text = raise e ->
  check_file ast_parse filepath text = raise e.
Proof.
  intros Hp. unfold check_file, sorted_issues, get_issues_by_node.
  destruct (get_issues_by_line_spec text) as [by_line [Hl _]].
  rewrite Hl, Hp. reflexivity.
Qed.

Lemma check_file_returns (filepath text : str) (tree : node) :
  ast_parse text = ret tree ->
  exists printed, check_file ast_parse filepath text = ret printed.
Proof.
  intros Hp. unfold check_file, sorted_issues, get_issues_by_node.
  destruct (get_issues_by_line_spec text) as [by_line [Hl _]].
  rewrite Hl, Hp. eexists. reflexivity.
Qed.

(** Files run one after the other: what a run without exception printed
    stands before what the following files print. *)
Lemma check_files_app (before after : list SourceFile) (printed : list str) :
  check_files ast_parse before = (printed, None) ->
  check_files ast_parse (before ++ after)
  = (printed ++ fst (check_files ast_parse after),
     snd (check_files ast_parse after)).
Proof.
  revert printed. induction before as [| f before IH]; intros printed H.
  - injection H as <-. simpl. destruct (check_files ast_parse after).
    reflexivity.
  - cbn [app check_files] in *.
    destruct (eqb (file_name f) $"tests.py"); [apply IH; exact H |].
    destruct (check_file ast_parse (file_path f) (file_text f))
      as [e | here]; [discriminate H |].
    destruct (check_files ast_parse before) as [later e] eqn:Hb.
    injection H as <- ->.
    rewrite (IH later eq_refl). rewrite app_assoc. reflexivity.
Qed.

End DriverFacts.

(** X15. A file named [tests.py] is never analysed: the run over a directory
    prints and ends exactly as it does without such files. *)
Theorem tests_file_skipped :
  forall (ast_parse : str -> Res node) (files : list SourceFile),
    check_files ast_parse files
    = check_files ast_parse (filter (fun f => negb (is_tests f)) files).
Proof.
  intros ast_parse. induction files as [| f files IH]; [reflexivity |].
  cbn [check_files filter]. unfold is_tests at 1.
  destruct (eqb (file_name f) $"tests.py") eqn:Ht; cbn [negb].
  - exact IH.
  - cbn [check_files]. rewrite Ht, IH. reflexivity.
Qed.

(** X16. The first file on which [ast.parse] raises ends the run over a
    directory: the exception leaves the loop, what the files before it
    printed stays, and no later file is analysed. *)
Theorem first_parse_error_ends_run :
  forall (ast_parse : str -> Res node) (before after : list SourceFile)
         (f : SourceFile) (printed : list str) (e : exn),
    check_files ast_parse before = (printed, None) ->
    is_tests f = false ->
    ast_parse (file_text f) = raise e ->
    check_files ast_parse (before ++ f :: after) = (printed, Some e).
Proof.
  intros ast_parse before after f printed e Hb Ht Hp.
  rewrite (check_files_app ast_parse before (f :: after) Hb).
  cbn [check_files]. unfold is_tests in Ht. rewrite Ht.
  rewrite (check_file_raises ast_parse (file_path f) _ Hp).
  cbn [fst snd]. rewrite app_nil_r. reflexivity.
Qed.

Lemma first_parse_error_ends_run_witness :
  check_files parse_samples sample_before
  = (map (render $"src/a.py")
       [mkIssue $"S008" $"Class name 'myClass' should use CamelCase" 1;
        mkIssue $"S007" $"Too many spaces after 'def'" 2;
        mkIssue $"S009" $"Function name 'MyMethod' should use snake_case" 2;
        mkIssue $"S010" $"Argument name 'X' should be snake case" 2;
        S003 3],
     None)
  /\ is_tests sample_broken = false
  /\ parse_samples (file_text sample_broken) = raise SyntaxError
  /\ check_files parse_samples (sample_before ++ sample_broken :: sample_after)
     = (map (render $"src/a.py")
          [mkIssue $"S008" $"Class name 'myClass' should use CamelCase" 1;
           mkIssue $"S007" $"Too many spaces after 'def'" 2;
           mkIssue $"S009" $"Function name 'MyMethod' should use snake_case"
             2;
           mkIssue $"S010" $"Argument name 'X' should be snake case" 2;
           S003 3],
        Some SyntaxError).
Proof.
  split; [vm_compute; reflexivity |]. split; [reflexivity |].
  split; [reflexivity |].
  apply (@first_parse_error_ends_run parse_samples sample_before
           sample_after sample_broken _ SyntaxError);
    [vm_compute; reflexivity | reflexivity | reflexivity].
Defined.

(** ** Ties in the report *)

(** X17. Whenever [check_file] has a report, the issues that share a line
    number and a code stand in it in the order they were produced: those
    of the line pass first, then those of the node pass in the order of
    the walk. *)
Theorem report_keeps_ties :
  forall (ast_parse : str -> Res node) (text : str) (issues : list Issue),
    sorted_issues ast_parse text = ret issues ->
    exists by_line by_node,
      get_issues_by_line text = ret by_line
      /\ get_issues_by_node ast_parse text = ret by_node
      /\ forall k,
          filter (same_key sort_key k) issues
          = filter (same_key sort_key k) (by_line ++ by_node).
Proof.
  intros ast_parse text issues Hs. unfold sorted_issues in Hs.
  apply bind_ret_inv in Hs as [by_line [Hl Hs]].
  apply bind_ret_inv in Hs as [by_node [Hn Hs]].
  apply ret_inj in Hs. subst issues.
  exists by_line, by_node. repeat split; try assumption.
  intros k. apply sorted_stable.
Qed.

(** Two ties: parameters [A] and [B] at line 1, [C] and [D] at line 2.
    The sort moves the semicolon issue of line 2 behind the issues of
    line 1 and leaves each pair in the order of the parameter list. *)
Lemma report_keeps_ties_witness :
  sorted_issues (parse_only ties_text (ret ties_tree)) ties_text
  = ret [mkIssue $"S010" $"Argument name 'A' should be snake case" 1;
         mkIssue $"S010" $"Argument name 'B' should be snake case" 1;
         S003 2;
         mkIssue $"S010" $"Argument name 'C' should be snake case" 2;
         mkIssue $"S010" $"Argument name 'D' should be snake case" 2]
  /\ exists by_line by_node,
      get_issues_by_line ties_text = ret by_line
      /\ get_issues_by_node (parse_only ties_text (ret ties_tree)) ties_text
         = ret by_node
      /\ by_line ++ by_node
         = [S003 2;
            mkIssue $"S010" $"Argument name 'A' should be snake case" 1;
            mkIssue $"S010" $"Argument name 'B' should be snake case" 1;
            mkIssue $"S010" $"Argument name 'C' should be snake case" 2;
            mkIssue $"S010" $"Argument name 'D' should be snake case" 2]
      /\ filter (same_key sort_key (1, $"S010")) (by_line ++ by_node)
         = [mkIssue $"S010" $"Argument name 'A' should be snake case" 1;
            mkIssue $"S010" $"Argument name 'B' should be snake case" 1]
      /\ filter (same_key sort_key (2, $"S010")) (by_line ++ by_node)
         = [mkIssue $"S010" $"Argument name 'C' should be snake case" 2;
            mkIssue $"S010" $"Argument name 'D' should be snake case" 2]
      /\ forall k,
          filter (same_key sort_key k)
            [mkIssue $"S010" $"Argument name 'A' should be snake case" 1;
             mkIssue $"S010" $"Argument name 'B' should be snake case" 1;
             S003 2;
             mkIssue $"S010" $"Argument name 'C' should be snake case" 2;
             mkIssue $"S010" $"Argument name 'D' should be snake case" 2]
          = filter (same_key sort_key k) (by_line ++ by_node).
Proof.
  split; [vm_compute; reflexivity |].
  destruct (@report_keeps_ties (parse_only ties_text (ret ties_tree))
              ties_text _ ltac:(vm_compute; reflexivity))
    as [by_line [by_node [Hl [Hn Hk]]]].
  exists by_line, by_node.
  split; [exact Hl |]. split; [exact Hn |].
  assert (El : by_line = [S003 2]).
  { apply ret_inj. rewrite <- Hl. vm_compute. reflexivity. }
  assert (En : by_node
               = [mkIssue $"S010" $"Argument name 'A' should be snake case" 1;
                  mkIssue $"S010" $"Argument name 'B' should be snake case" 1;
                  mkIssue $"S010" $"Argument name 'C' should be snake case" 2;
                  mkIssue $"S010" $"Argument name 'D' should be snake case"
                    2]).
  { apply ret_inj. rewrite <- Hn. vm_compute. reflexivity. }
  split; [rewrite El, En; reflexivity |].
  split; [rewrite El, En; vm_compute; reflexivity |].
  split; [rewrite El, En; vm_compute; reflexivity |].
  exact Hk.
Defined.
